(** * go-lockbox: lease-based distributed locks over PostgreSQL

    A shallow embedding of [core/contract.go], of the migration
    [v0.0.1.sql] (the lock table and [try_acquire_lock]) and of the
    PostgreSQL adapter ([pg/acquire.go], [pg/implementation.go] and the
    release, refresh and is-held files), followed by the properties of the
    lock protocol that hold, or fail, on that code.

    Conventions.
    - [time.Duration] is a signed 64-bit count of nanoseconds: a [Z], with
      the wrap-around of Go's integer arithmetic written out ([wrap64]).
    - A [TIMESTAMPTZ] is a [Z]: microseconds since the epoch, the resolution
      PostgreSQL stores.  [NOW()] is the transaction's timestamp and is an
      argument of every statement.
      Interval arithmetic is exact: a TTL in milliseconds times
      [INTERVAL '1 millisecond'] is that many thousand microseconds.
    - [float64] is the kernel's binary64 ([PrimFloat.float]).
    - A Go [error] is a value of [error]; a nil error is [None]. *)

From Stdlib Require Import ZArith Bool List String Ascii Lia Floats.
From stdpp Require Import gmap strings.

Local Open Scope string_scope.
Local Open Scope Z_scope.

(* ===================================================================== *)
(** * Errors *)
(* ===================================================================== *)

(** What the driver (pgx, pgxpool) can report.  None of these values comes
    from package [core]. *)
Inductive pgx_error : Type :=
| ErrNoRows                          (* pgx.ErrNoRows *)
| ErrClosedPool                      (* a request on a closed pgxpool.Pool *)
| PgError (sqlstate : string)        (* an error raised by the server *)
| ScanError (msg : string)           (* a column that cannot be scanned *)
| ContextError (msg : string).       (* deadline exceeded, cancellation *)

(** An operand of a formatting verb other than [%w]. *)
Inductive fmt_arg : Type :=
| ArgDuration (d : Z)
| ArgString (s : string).

Inductive error : Type :=
(* the sentinels of core/contract.go *)
| ErrLockAcquisitionFailed
| ErrLockOwnershipMismatch
| ErrInvalidTTL
| ErrAdapterClosed
| ErrLockContention
| ErrInvalidKeyFormat
| ErrRefreshTooLate
| ErrOperationTimeout
| ErrLockNotFound
(* errors.New(msg): a fresh error carrying [msg] *)
| errors_New (msg : string)
(* fmt.Errorf(format, ...) with one %w operand [wrapped] *)
| fmt_Errorf (format : string) (wrapped : error) (args : list fmt_arg)
(* an error of the driver *)
| Pgx (e : pgx_error).

Definition pgx_error_eq_dec (a b : pgx_error) : {a = b} + {a <> b}.
Proof. decide equality; apply string_dec. Defined.

Definition fmt_arg_eq_dec (a b : fmt_arg) : {a = b} + {a <> b}.
Proof. decide equality; [apply Z.eq_dec | apply string_dec]. Defined.

Definition error_eq_dec (a b : error) : {a = b} + {a <> b}.
Proof.
  decide equality;
    [apply string_dec | apply (List.list_eq_dec fmt_arg_eq_dec)
    | apply string_dec | apply pgx_error_eq_dec].
Defined.

(** [errors.Is(err, target)]: [err] or an error it wraps is [target]. *)
Fixpoint errors_Is (err target : error) : bool :=
  if error_eq_dec err target then true
  else match err with
       | fmt_Errorf _ w _ => errors_Is w target
       | _ => false
       end.

(* ===================================================================== *)
(** * Numbers of the Go runtime *)
(* ===================================================================== *)

(** Wrap-around of signed 64-bit arithmetic. *)
Definition wrap64 (z : Z) : Z := (z + 2 ^ 63) mod 2 ^ 64 - 2 ^ 63.

Definition MinInt64 : Z := - 2 ^ 63.
Definition MaxInt64 : Z := 2 ^ 63 - 1.

(** [float64(n)] for an integer [n]: round to nearest, ties to even. *)
Definition float64_of_int (n : Z) : float :=
  SF2Prim (binary_normalize prec emax n 0 false).

(** The integer part of a finite float, rounded toward zero. *)
Definition float_trunc (f : float) : option Z :=
  match Prim2SF f with
  | S754_zero _ => Some 0
  | S754_finite s m e =>
      let mag := if 0 <=? e then Z.pos m * 2 ^ e else Z.pos m / 2 ^ (- e) in
      Some (if s then - mag else mag)
  | S754_infinity _ | S754_nan => None
  end.

(** [int64(f)], and so [time.Duration(f)]: truncation toward zero.  When the
    value is not representable (NaN, an infinity, out of range) Go leaves
    the result to the implementation; amd64's CVTTSD2SQ gives the smallest
    int64, which is what is modelled. *)
Definition int64_of_float (f : float) : Z :=
  match float_trunc f with
  | Some z => if (MinInt64 <=? z) && (z <=? MaxInt64) then z else MinInt64
  | None => MinInt64
  end.

(** [math.Frexp]: [f = frac * 2^exp] with [0.5 <= |frac| < 1]; zero, the
    infinities and NaN come back unchanged with exponent 0. *)
Definition math_Frexp (f : float) : float * Z :=
  match Prim2SF f with
  | S754_finite _ _ _ => Z.frexp f
  | _ => (f, 0)
  end.

(** [math.Ldexp]: [frac * 2^exp]. *)
Definition math_Ldexp (frac : float) (exp : Z) : float := Z.ldexp frac exp.

Definition math_IsNaN (f : float) : bool := negb (PrimFloat.eqb f f).

Definition math_Signbit (f : float) : bool :=
  match Prim2SF f with
  | S754_zero s | S754_infinity s | S754_finite s _ _ => s
  | S754_nan => false
  end.

(** pow.go's [isOddInt]. *)
Definition isOddInt (x : float) : bool :=
  if PrimFloat.leb (float64_of_int (2 ^ 53)) (PrimFloat.abs x) then false
  else match float_trunc x with
       | Some xi => PrimFloat.eqb x (float64_of_int xi) && Z.odd xi
       | None => false
       end.

(** The multiplication loop of pow.go: [ans *= x**yi], the answer kept as
    [a1 * 2^ae].  [i] is below [2^63], so 64 rounds exhaust it. *)
Fixpoint pow_loop (fuel : nat) (i : Z) (a1 : float) (ae : Z)
    (x1 : float) (xe : Z) : float * Z :=
  match fuel with
  | O => (a1, ae)
  | S fuel' =>
      if i =? 0 then (a1, ae)
      else if (xe <? - 2 ^ 12) || (2 ^ 12 <? xe) then (a1, ae + xe)
      else
        let '(a1', ae') :=
          if Z.odd i then (PrimFloat.mul a1 x1, ae + xe) else (a1, ae) in
        let x1' := PrimFloat.mul x1 x1 in
        let xe' := Z.shiftl xe 1 in
        let '(x1'', xe'') :=
          if PrimFloat.ltb x1' 0.5%float
          then (PrimFloat.add x1' x1', xe' - 1) else (x1', xe') in
        pow_loop fuel' (Z.shiftr i 1) a1' ae' x1'' xe''
  end.

(** [math.Pow(x, float64(n))] for a Go int [n], after the portable
    implementation of the Go runtime (pow.go): its special cases in their
    order, then the loop over the integer part of the exponent.  The
    exponent CalculateBackoff passes is always [float64(attempt)]: it is
    finite and its fractional part is zero, so the cases for an infinite
    exponent and for the exponents 0.5 and -0.5, and the step
    [ans *= x**yf] (the only use of Exp and Log), are never taken and have
    no counterpart here. *)
Definition math_Pow_int (x : float) (n : Z) : float :=
  let y := float64_of_int n in
  let one := 1%float in
  let inf := PrimFloat.infinity in
  if PrimFloat.eqb y 0 || PrimFloat.eqb x one then one
  else if PrimFloat.eqb y one then x
  else if math_IsNaN x || math_IsNaN y then PrimFloat.nan
  else if PrimFloat.eqb x 0 then
    if PrimFloat.ltb y 0 then
      if math_Signbit x && isOddInt y then PrimFloat.neg_infinity else inf
    else
      if math_Signbit x && isOddInt y then x else 0%float
  else if PrimFloat.eqb (PrimFloat.abs x) inf then
    if math_Signbit x then
      (* Pow(1/x, -y), that is Pow(-0, -y) *)
      if PrimFloat.ltb 0 y then
        if isOddInt y then PrimFloat.neg_infinity else inf
      else
        if isOddInt y then (PrimFloat.opp 0)%float else 0%float
    else
      if PrimFloat.ltb y 0 then 0%float else inf
  else
    let yabs := PrimFloat.abs y in
    if PrimFloat.leb (float64_of_int (2 ^ 63)) yabs then
      if PrimFloat.eqb x (PrimFloat.opp one) then one
      else if Bool.eqb (PrimFloat.ltb (PrimFloat.abs x) one) (PrimFloat.ltb 0 y)
           then 0%float else inf
    else
      let yi := match float_trunc yabs with Some z => z | None => 0 end in
      let '(x1, xe) := math_Frexp x in
      let '(a1, ae) := pow_loop 64 yi one 0 x1 xe in
      let '(a1, ae) :=
        if PrimFloat.ltb y 0 then (PrimFloat.div one a1, - ae) else (a1, ae) in
      math_Ldexp a1 ae.

(* ===================================================================== *)
(** * Package core (core/contract.go) *)
(* ===================================================================== *)

Module core.

(** Durations, in nanoseconds. *)
Definition Nanosecond : Z := 1.
Definition Microsecond : Z := 1000 * Nanosecond.
Definition Millisecond : Z := 1000 * Microsecond.
Definition Second : Z := 1000 * Millisecond.
Definition Minute : Z := 60 * Second.

(** [d.Milliseconds()]: the duration as an integer millisecond count
    (Go's integer division, toward zero). *)
Definition Milliseconds (d : Z) : Z := Z.quot d 1000000.

(** Configuration constants. *)
Definition DefaultLockTTL : Z := 15 * Second.
Definition MinLockTTL : Z := 1 * Millisecond.
Definition MaxLockTTL : Z := 10 * Minute.
Definition DefaultMaxRetries : Z := 5.
Definition MaxKeyLength : Z := 256.
Definition DefaultRequestTimeout : Z := 3 * Second.

(** RetryStrategy defines a retry policy. *)
Record RetryStrategy : Type := {
  MaxRetries : Z;         (* int *)
  BaseDelay : Z;          (* time.Duration *)
  MaxDelay : Z;           (* time.Duration *)
  JitterFactor : float;   (* float64 *)
  BackoffFactor : float   (* float64 *)
}.

(** LockOptions defines parameters for lock acquisition.  The field
    [RetryStrategy] of the source is [Retry] here, the type keeping the
    name; a nil [Metadata] map is [None]. *)
Record LockOptions : Type := {
  TTL : Z;
  Retry : RetryStrategy;
  Metadata : option (gmap string string);
  RequestTimeout : Z
}.

(** LockToken represents a successfully acquired lock. *)
Record LockToken : Type := {
  Key : string;
  LeaseID : string;
  ValidUntil : Z;         (* time.Time, as the backend's timestamp *)
  ServerNonce : string
}.

Inductive HealthStatus : Type := StatusGreen | StatusYellow | StatusRed.

Record HealthReport : Type := {
  Status : HealthStatus;
  Latency : Z;
  Throughput : float;
  Error : option error    (* the Go interface value: nil is None *)
}.

(** [RetryStrategy.Validate]. *)
Definition RetryStrategy_Validate (r : RetryStrategy) : option error :=
  if MaxRetries r <? 0 then
    Some (errors_New "max retries must be ≥ 0")
  else if PrimFloat.ltb (JitterFactor r) 0 || PrimFloat.ltb 1 (JitterFactor r) then
    Some (errors_New "jitter factor must be [0.0, 1.0]")
  else if PrimFloat.ltb (BackoffFactor r) 1 then
    Some (errors_New "backoff factor must be ≥ 1")
  else None.

(** [LockOptions.Validate]: the receiver is a pointer, so the default
    request timeout it fills in is part of the result. *)
Definition Validate (o : LockOptions) : LockOptions * option error :=
  if (TTL o <? MinLockTTL) || (MaxLockTTL <? TTL o) then
    (o, Some (fmt_Errorf "%w: %v" ErrInvalidTTL (ArgDuration (TTL o) :: nil)))
  else
    let o' :=
      if RequestTimeout o <=? 0
      then {| TTL := TTL o; Retry := Retry o; Metadata := Metadata o;
              RequestTimeout := DefaultRequestTimeout |}
      else o in
    (o', RetryStrategy_Validate (Retry o')).

(** The character class [[a-zA-Z0-9_-]]. *)
Definition key_char (c : ascii) : bool :=
  let n := Z.of_nat (nat_of_ascii c) in
  ((97 <=? n) && (n <=? 122)) || ((65 <=? n) && (n <=? 90))
  || ((48 <=? n) && (n <=? 57)) || (n =? 95) || (n =? 45).

Fixpoint all_key_chars (s : string) : bool :=
  match s with
  | EmptyString => true
  | String c s' => key_char c && all_key_chars s'
  end.

(** The regular expression [^[a-zA-Z0-9_-]{1,256}$] on the whole key. *)
Definition validKeyRegex (key : string) : bool :=
  all_key_chars key
  && (1 <=? Z.of_nat (String.length key))
  && (Z.of_nat (String.length key) <=? 256).

Definition ValidateKey (key : string) : option error :=
  if negb (validKeyRegex key) then
    Some (fmt_Errorf "%w: %s" ErrInvalidKeyFormat (ArgString key :: nil))
  else None.

(** Helper for calculating backoff time:
    [BaseDelay * time.Duration(math.Pow(BackoffFactor, float64(attempt)))],
    capped at [MaxDelay].  The product is an int64 product. *)
Definition CalculateBackoff (strategy : RetryStrategy) (attempt : Z) : Z :=
  let delay :=
    wrap64 (BaseDelay strategy
            * int64_of_float (math_Pow_int (BackoffFactor strategy) attempt)) in
  if MaxDelay strategy <? delay then MaxDelay strategy else delay.

End core.

(* ===================================================================== *)
(** * The lock table and try_acquire_lock (migration v0.0.1.sql) *)
(* ===================================================================== *)

Module sql.

(** One microsecond is the unit of a timestamp; [INTERVAL '1 millisecond']. *)
Definition millisecond : Z := 1000.

(** A JSONB document holding what [json.Marshal] makes of a
    [map[string]string]: the document is represented by the map it encodes,
    JSON [null] (the encoding of a nil map) by [None]. *)
Abbreviation jsonb := (option (gmap string string)) (only parsing).

(** A row of the lock table, less its primary key [key], which indexes the
    table: the uniqueness constraint is the map's. *)
Record Lease : Type := {
  lease_id : string;
  valid_until : Z;
  server_nonce : string;
  metadata : jsonb;
  created_at : Z;
  updated_at : Z
}.

(** The operator [~ '^[a-zA-Z0-9_-]+$']. *)
Definition key_regex (key : string) : bool :=
  core.all_key_chars key && negb (String.eqb key "").

Definition LENGTH (s : string) : Z := Z.of_nat (String.length s).

(** The CHECK constraint of the column [key]. *)
Definition key_check (key : string) : bool :=
  key_regex key && (1 <=? LENGTH key) && (LENGTH key <=? 256).

Definition COALESCE {A : Type} (v : option A) (d : A) : A :=
  match v with Some a => a | None => d end.

(** What a statement does to the table: an error of the server (the table
    is then as before), or the new table and the statement's result. *)
Abbreviation outcome A := (pgx_error + (gmap string Lease * A))%type (only parsing).

(** [try_acquire_lock(_key, _lease_id, _ttl_ms, _nonce, _metadata)], run at
    transaction time [now].  The result is the single row
    [(result_acquired, result_valid_until)]; a NULL timestamp is [None].

    The INSERT proposes the row [excluded]; on a conflict on [key] the
    existing row is overwritten only where its [valid_until <= NOW()], and
    a row that is neither inserted nor updated leaves both output
    variables NULL.  The handler for unique_violation has no case here:
    [key] is the table's only unique column and ON CONFLICT arbitrates it. *)
Definition try_acquire_lock (now : Z) (_key _lease_id : string) (_ttl_ms : Z)
    (_nonce : string) (_metadata : jsonb) (tb : gmap string Lease)
  : outcome (bool * option Z) :=
  if (256 <? LENGTH _key) || negb (key_regex _key) then
    inl (PgError "22023")
  else
    let excluded :=
      {| lease_id := _lease_id;
         valid_until := now + _ttl_ms * millisecond + 10 * millisecond;
         server_nonce := _nonce;
         metadata := _metadata;
         created_at := now;
         updated_at := now |} in
    let upsert : outcome (option bool * option Z) :=
      match tb !! _key with
      | None =>
          if key_check _key
          then inr (<[_key := excluded]> tb,
                    (Some true, Some (valid_until excluded)))
          else inl (PgError "23514")
      | Some row =>
          if valid_until row <=? now then
            let row' :=
              {| lease_id := lease_id excluded;
                 valid_until := valid_until excluded;
                 server_nonce := server_nonce excluded;
                 metadata := metadata excluded;
                 created_at := created_at row;
                 updated_at := now |} in
            inr (<[_key := row']> tb, (Some true, Some (valid_until row')))
          else inr (tb, (None, None))
      end in
    match upsert with
    | inl e => inl e
    | inr (tb', (result_acquired, result_valid_until)) =>
        inr (tb', (COALESCE result_acquired false, result_valid_until))
    end.

(** [releaseLockSQL]: DELETE ... WHERE key = $1 AND lease_id = $2 AND
    server_nonce = $3, with the number of rows it removed. *)
Definition releaseLockSQL (k l n : string) (tb : gmap string Lease)
  : outcome Z :=
  match tb !! k with
  | Some row =>
      if String.eqb (lease_id row) l && String.eqb (server_nonce row) n
      then inr (delete k tb, 1)
      else inr (tb, 0)
  | None => inr (tb, 0)
  end.

(** [EXTRACT(EPOCH FROM i)] for an interval of [us] microseconds, as the
    float64 the driver scans it into: seconds. *)
Definition EXTRACT_EPOCH (us : Z) : float :=
  PrimFloat.div (float64_of_int us) (float64_of_int 1000000).

(** [isHeldLockSQL]: SELECT valid_until > NOW(), EXTRACT(EPOCH FROM
    (valid_until - NOW())) ... WHERE key = $1: the rows it returns. *)
Definition isHeldLockSQL (k : string) (now : Z) (tb : gmap string Lease)
  : list (bool * float) :=
  match tb !! k with
  | Some row => (now <? valid_until row, EXTRACT_EPOCH (valid_until row - now)) :: nil
  | None => nil
  end.

(** A value bound to a placeholder, and the placeholders a statement's text
    can name. *)
Inductive value : Type := VText (s : string) | VInt (n : Z).
Inductive placeholder : Type := Positional (n : nat) | Named (name : string).

(** The arguments of a call bind the positional placeholders $1, $2, ...
    and nothing else. *)
Definition positional (args : list value) (ph : placeholder) : option value :=
  match ph with
  | Positional (S i) => nth_error args i
  | Positional O | Named _ => None
  end.

(** [refreshLockSQL].  The text is
      UPDATE ... SET valid_until = NOW() + ($ttl * INTERVAL '1 millisecond'),
                     server_nonce = $new_nonce, updated_at = NOW()
      WHERE key = $1 AND lease_id = $2 AND server_nonce = $3
        AND valid_until > NOW() - ($ttl * 0.15 * INTERVAL '1 millisecond');
      RETURNING valid_until;
    It names five placeholders.  [resolve] says what each stands for; where
    all five have a value the statement is the conditional update spelled
    out above ([$ttl * 0.15] milliseconds are [150 * ttl] microseconds),
    returning the new [valid_until] of the row it changed.  Where one has
    none, the server rejects the statement (42601, syntax error); the text
    also closes the UPDATE with a semicolon before RETURNING. *)
Definition refreshLockSQL (resolve : placeholder -> option value) (now : Z)
    (tb : gmap string Lease) : outcome (list Z) :=
  match resolve (Named "ttl"), resolve (Named "new_nonce"),
        resolve (Positional 1), resolve (Positional 2), resolve (Positional 3)
  with
  | Some (VInt ttl), Some (VText new_nonce),
    Some (VText k), Some (VText l), Some (VText n) =>
      match tb !! k with
      | Some row =>
          if String.eqb (lease_id row) l && String.eqb (server_nonce row) n
             && (now - ttl * 150 <? valid_until row)
          then
            let row' :=
              {| lease_id := lease_id row;
                 valid_until := now + ttl * millisecond;
                 server_nonce := new_nonce;
                 metadata := metadata row;
                 created_at := created_at row;
                 updated_at := now |} in
            inr (<[k := row']> tb, valid_until row' :: nil)
          else inr (tb, nil)
      | None => inr (tb, nil)
      end
  | _, _, _, _, _ => inl (PgError "42601")
  end.

End sql.

(* ===================================================================== *)
(** * Package pg: the PostgreSQL adapter *)
(* ===================================================================== *)

Module pg.
Import core sql.

(** The connection pool and the database behind it: pgxpool's closed flag
    and the lock table.  A closed pool refuses every request. *)
Record Pool : Type := {
  closed : bool;
  locks : gmap string Lease
}.

(** [pool.Exec] and [pool.QueryRow] of a statement that may write. *)
Definition run {A : Type} (p : Pool)
    (stmt : gmap string Lease -> pgx_error + (gmap string Lease * A))
  : Pool * (pgx_error + A) :=
  if closed p then (p, inl ErrClosedPool)
  else match stmt (locks p) with
       | inl e => (p, inl e)
       | inr (tb, a) => ({| closed := closed p; locks := tb |}, inr a)
       end.

(** [pool.QueryRow] of a SELECT. *)
Definition query {A : Type} (p : Pool) (stmt : gmap string Lease -> list A)
  : pgx_error + list A :=
  if closed p then inl ErrClosedPool else inr (stmt (locks p)).

(** [row.Scan] after QueryRow: the first row, pgx.ErrNoRows when there is
    none, the query's error when it failed. *)
Definition Scan {A : Type} (rows : pgx_error + list A) : pgx_error + A :=
  match rows with
  | inl e => inl e
  | inr nil => inl ErrNoRows
  | inr (a :: _) => inr a
  end.

(** PostgresLockAdapter: the pool (the configuration only names the schema
    and the table). *)
Abbreviation PostgresLockAdapter := Pool (only parsing).

(** ** Close, HealthCheck (implementation.go) *)

(** [Close]: closes the pool and returns nil. *)
Definition Close (p : PostgresLockAdapter) : PostgresLockAdapter * option error :=
  ({| closed := true; locks := locks p |}, None).

(** [err.Error()] of a driver error.  A server error prints as
    [ERROR: <message> (SQLSTATE <code>)]; the model carries the code and not
    the message, which is left out of the text. *)
Definition pgx_Error (e : pgx_error) : string :=
  match e with
  | ErrNoRows => "no rows in result set"
  | ErrClosedPool => "closed pool"
  | PgError sqlstate => "ERROR: (SQLSTATE " ++ sqlstate ++ ")"
  | ScanError msg | ContextError msg => msg
  end.

(** [HealthCheck].  [probe] is what Scan reports for SELECT 1 (the error, or
    the integer read into [result], which stays 0 on an error), [latency]
    the time measured around it and [acquiredConns] the pool's statistic. *)
Definition HealthCheck (probe : pgx_error + Z) (latency : Z) (acquiredConns : Z)
  : HealthReport :=
  let err : option pgx_error :=
    match probe with inl e => Some e | inr _ => None end in
  let result : Z := match probe with inl _ => 0 | inr v => v end in
  let '(status, errMsg) :=
    if (match err with Some _ => true | None => false end) || negb (result =? 1)
    then (StatusRed,
          match err with
          | Some e => pgx_Error e
          | None => "unexpected query result"
          end)
    else (StatusGreen, "") in
  {| Status := status;
     Latency := latency;
     Throughput := float64_of_int acquiredConns;
     Error := Some (errors_New errMsg) |}.

(** ** Release *)

Definition Release (p : PostgresLockAdapter) (token : LockToken)
  : PostgresLockAdapter * option error :=
  let '(p', r) :=
    run p (releaseLockSQL (Key token) (LeaseID token) (ServerNonce token)) in
  match r with
  | inl err =>
      if errors_Is (Pgx err) (Pgx ErrNoRows)
      then (p', Some ErrLockOwnershipMismatch)
      else (p', Some (Pgx err))
  | inr rowsAffected =>
      if rowsAffected =? 0 then (p', Some ErrLockOwnershipMismatch)
      else (p', None)
  end.

(** ** IsHeld *)

Definition IsHeld (p : PostgresLockAdapter) (now : Z) (token : LockToken)
  : bool * Z * option error :=
  match Scan (query p (isHeldLockSQL (Key token) now)) with
  | inl err =>
      if errors_Is (Pgx err) (Pgx ErrNoRows) then (false, 0, None)
      else (false, 0, Some (Pgx err))
  | inr (isLocked, remainingTTL) =>
      (isLocked, wrap64 (int64_of_float remainingTTL * Second), None)
  end.

(** ** Refresh *)

(** The body of [Refresh], for a driver that resolves the statement's
    placeholders by [resolve].  On success the token handed in is the one
    returned, with [ValidUntil] overwritten and nothing else. *)
Definition Refresh_with (resolve : placeholder -> option value)
    (p : PostgresLockAdapter) (now : Z) (token : LockToken)
  : PostgresLockAdapter * (error + LockToken) :=
  let '(p', rows) := run p (refreshLockSQL resolve now) in
  match Scan rows with
  | inl err =>
      if errors_Is (Pgx err) (Pgx ErrNoRows) then (p', inl ErrRefreshTooLate)
      else (p', inl (Pgx err))
  | inr valid_until =>
      (p', inr {| Key := Key token; LeaseID := LeaseID token;
                  ValidUntil := valid_until;
                  ServerNonce := ServerNonce token |})
  end.

(** [Refresh]: the query is given the token's key, lease id and nonce, and
    no other argument; [newTTL] is not used. *)
Definition Refresh (p : PostgresLockAdapter) (now : Z) (token : LockToken)
    (newTTL : Z) : PostgresLockAdapter * (error + LockToken) :=
  Refresh_with
    (positional (VText (Key token) :: VText (LeaseID token)
                 :: VText (ServerNonce token) :: nil))
    p now token.

(** ** Acquire (acquire.go) *)

(** The arguments of one call of try_acquire_lock and the deadline put on
    it. *)
Record TryAcquire : Type := {
  q_attempt : Z;
  q_timeout : Z;
  q_key : string;
  q_lease_id : string;
  q_ttl_ms : Z;
  q_nonce : string;
  q_metadata : jsonb
}.

(** What [row.Scan(&acquired, &validUntil)] reports for a call. *)
Inductive Scanned : Type :=
| Row (acquired : bool) (validUntil : Z)
| Failed (err : pgx_error).

(** What Acquire does to the outside, in order. *)
Inductive event : Type :=
| Query (q : TryAcquire)
| Sleep (d : Z).

(** [json.Marshal] of the metadata map; it has no error for a map of
    strings. *)
Definition json_Marshal (m : option (gmap string string)) : error + jsonb :=
  inr m.

(** The call of try_acquire_lock Acquire issues at [attempt]. *)
Definition attempt_query (key leaseID nonce : string) (metadata : jsonb)
    (opts : LockOptions) (attempt : Z) : TryAcquire :=
  {| q_attempt := attempt;
     q_timeout := RequestTimeout opts;
     q_key := key;
     q_lease_id := leaseID;
     q_ttl_ms := Milliseconds (TTL opts);
     q_nonce := nonce;
     q_metadata := metadata |}.

(** The retry loop, [n] rounds of it left, at [attempt]. *)
Fixpoint acquire_loop (backend : TryAcquire -> Scanned)
    (key leaseID nonce : string) (metadata : jsonb) (opts : LockOptions)
    (n : nat) (attempt : Z) : list event * (error + LockToken) :=
  match n with
  | O => (nil, inl ErrLockAcquisitionFailed)
  | S n' =>
      let q := attempt_query key leaseID nonce metadata opts attempt in
      match backend q with
      | Row true validUntil =>
          (Query q :: nil,
           inr {| Key := key; LeaseID := leaseID;
                  ValidUntil := validUntil; ServerNonce := nonce |})
      | Row false _ =>
          let '(tr, r) :=
            acquire_loop backend key leaseID nonce metadata opts n' (attempt + 1) in
          (Query q :: Sleep (CalculateBackoff (Retry opts) attempt) :: tr, r)
      | Failed err =>
          (Query q :: nil,
           inl (fmt_Errorf "failed to acquire lock: %w" (Pgx err) nil))
      end
  end.

(** [Acquire].  [leaseID] and [nonce] are the two identifiers
    uuid.NewString() hands out; [backend] answers each call of
    try_acquire_lock.  The loop runs [attempt = 0 .. MaxRetries], the
    counter being a [Z] (a Go int would wrap only past MaxRetries =
    MaxInt64). *)
Definition Acquire (backend : TryAcquire -> Scanned) (leaseID nonce : string)
    (key : string) (opts : LockOptions) : list event * (error + LockToken) :=
  match ValidateKey key with
  | Some err => (nil, inl err)
  | None =>
      let '(opts, verr) := Validate opts in
      match verr with
      | Some err => (nil, inl err)
      | None =>
          match json_Marshal (Metadata opts) with
          | inl err =>
              (nil, inl (fmt_Errorf "failed to marshal metadata: %w" err nil))
          | inr metadata =>
              acquire_loop backend key leaseID nonce metadata opts
                (Z.to_nat (MaxRetries (Retry opts) + 1)) 0
          end
      end
  end.

(** What [i] contended rounds starting at attempt [a] leave in the trace:
    each a call followed by the sleep of its backoff delay. *)
Fixpoint contended_rounds (q : Z -> TryAcquire) (s : RetryStrategy) (a : Z)
    (i : nat) : list event :=
  match i with
  | O => nil
  | S i' =>
      Query (q a) :: Sleep (CalculateBackoff s a)
        :: contended_rounds q s (a + 1) i'
  end.

(** [row.Scan(&acquired, &validUntil)] on the row try_acquire_lock returns:
    [acquired] is a bool and [validUntil] a time.Time, into which the
    driver refuses to read a NULL. *)
Definition Scan_acquired (r : pgx_error + (bool * option Z)) : Scanned :=
  match r with
  | inl e => Failed e
  | inr (acquired, Some validUntil) => Row acquired validUntil
  | inr (_, None) => Failed (ScanError "cannot scan NULL into *time.Time")
  end.

(** The backend Acquire has in this repository: the call [q] runs
    try_acquire_lock on the lock table [tb], at the time [clock] gives for
    the attempt, and the row is read by Scan. *)
Definition backend_on (clock : Z -> Z) (tb : gmap string Lease)
    (q : TryAcquire) : Scanned :=
  Scan_acquired
    match try_acquire_lock (clock (q_attempt q)) (q_key q) (q_lease_id q)
            (q_ttl_ms q) (q_nonce q) (q_metadata q) tb with
    | inl e => inl e
    | inr (_, row) => inr row
    end.

End pg.

(* ===================================================================== *)
(** * Vocabulary of the properties *)
(* ===================================================================== *)

Module Outcome.
Import core sql pg.

(** The errors validation produces: the two wrapped sentinels and the three
    errors of [RetryStrategy.Validate]. *)
Definition validation_error (e : error) : bool :=
  errors_Is e ErrInvalidKeyFormat
  || errors_Is e ErrInvalidTTL
  || (if error_eq_dec e (errors_New "max retries must be ≥ 0") then true else false)
  || (if error_eq_dec e (errors_New "jitter factor must be [0.0, 1.0]") then true else false)
  || (if error_eq_dec e (errors_New "backoff factor must be ≥ 1") then true else false).

(** Acquire failed fast: a validation error and no event at all. *)
Definition fails_validation (r : list event * (error + LockToken)) : bool :=
  match r with
  | (nil, inl e) => validation_error e
  | _ => false
  end.

(** The number of calls of try_acquire_lock in a trace. *)
Fixpoint backend_calls (tr : list event) : nat :=
  match tr with
  | nil => O
  | Query _ :: tr' => S (backend_calls tr')
  | Sleep _ :: tr' => backend_calls tr'
  end.

(** The inputs the specification declares invalid: a key outside
    [[A-Za-z0-9_-]{1,256}], a TTL outside [1ms, 10min], or a retry strategy
    that breaks maxRetries >= 0, baseDelay > 0, maxDelay >= baseDelay,
    backoffFactor >= 1 or jitterFactor in [0,1]. *)
Definition spec_invalid_input (key : string) (o : LockOptions) : bool :=
  let r := Retry o in
  negb (validKeyRegex key)
  || negb ((MinLockTTL <=? TTL o) && (TTL o <=? MaxLockTTL))
  || negb ((0 <=? MaxRetries r)
           && (0 <? BaseDelay r)
           && (BaseDelay r <=? MaxDelay r)
           && PrimFloat.leb 1 (BackoffFactor r)
           && PrimFloat.leb 0 (JitterFactor r)
           && PrimFloat.leb (JitterFactor r) 1).

(** The inputs the code rejects: the comparisons ValidateKey, Validate and
    RetryStrategy.Validate make, and no other. *)
Definition rejected_input (key : string) (o : LockOptions) : bool :=
  let r := Retry o in
  negb (validKeyRegex key)
  || (TTL o <? MinLockTTL) || (MaxLockTTL <? TTL o)
  || (MaxRetries r <? 0)
  || PrimFloat.ltb (JitterFactor r) 0 || PrimFloat.ltb 1 (JitterFactor r)
  || PrimFloat.ltb (BackoffFactor r) 1.

(** The inputs of the amended claim: those of [spec_invalid_input] less the
    two bounds on the delays. *)
Definition amended_invalid_input (key : string) (o : LockOptions) : bool :=
  let r := Retry o in
  negb (validKeyRegex key)
  || negb ((MinLockTTL <=? TTL o) && (TTL o <=? MaxLockTTL))
  || negb ((0 <=? MaxRetries r)
           && PrimFloat.leb 1 (BackoffFactor r)
           && PrimFloat.leb 0 (JitterFactor r)
           && PrimFloat.leb (JitterFactor r) 1).

(** The error of a result matches [target]. *)
Definition reports {A : Type} (r : error + A) (target : error) : bool :=
  match r with
  | inl e => errors_Is e target
  | inr _ => false
  end.

End Outcome.

(* ===================================================================== *)
(** * Sample values *)
(* ===================================================================== *)

Module Sample.
Import core sql pg.

(** The retry strategy of the scenario in the specification and of the
    tests: five retries, 100 ms doubling up to 10 s. *)
Definition strategy (factor : float) : RetryStrategy :=
  {| MaxRetries := 5;
     BaseDelay := 100 * Millisecond;
     MaxDelay := 10 * Second;
     JitterFactor := 0%float;
     BackoffFactor := factor |}.

Definition options (ttl : Z) (s : RetryStrategy) : LockOptions :=
  {| TTL := ttl; Retry := s; Metadata := None; RequestTimeout := 5 * Second |}.

(** A lease on job-42 held under [lease-A]/[nonce-A] until [until]. *)
Definition lease_A (until : Z) : Lease :=
  {| lease_id := "lease-A"; valid_until := until; server_nonce := "nonce-A";
     metadata := None; created_at := 0; updated_at := 0 |}.

Definition held_by_A (until : Z) : Pool :=
  {| closed := false; locks := {[ "job-42" := lease_A until ]} |}.

(** The holder's token, and a token of another caller for the same key. *)
Definition token_A (until : Z) : LockToken :=
  {| Key := "job-42"; LeaseID := "lease-A"; ValidUntil := until;
     ServerNonce := "nonce-A" |}.

Definition token_B : LockToken :=
  {| Key := "job-42"; LeaseID := "lease-B"; ValidUntil := 0;
     ServerNonce := "nonce-B" |}.

(** The scenario of the specification: job-42, a TTL of 10 s, the strategy
    above with factor 2; the caller draws [lease-B] and [nonce-B]. *)
Definition job42_options : LockOptions := options (10 * Second) (strategy 2).

Definition job42_call (attempt : Z) : TryAcquire :=
  attempt_query "job-42" "lease-B" "nonce-B" None job42_options attempt.

(** Options the specification calls invalid: a base delay of zero. *)
Definition zero_delay_options : LockOptions :=
  options (10 * Second)
    {| MaxRetries := 5; BaseDelay := 0; MaxDelay := 0;
       JitterFactor := 0%float; BackoffFactor := 2%float |}.

(** A key of 257 characters. *)
Fixpoint repeat_a (n : nat) : string :=
  match n with
  | O => ""
  | S n' => String "a" (repeat_a n')
  end.

Definition long_key : string := repeat_a 257.

(** A driver that would give the two named placeholders of refreshLockSQL
    the values [ttl] (milliseconds) and [new_nonce], next to the three
    arguments Refresh passes. *)
Definition resolving (ttl : Z) (new_nonce : string) (token : LockToken)
    (ph : placeholder) : option value :=
  match ph with
  | Named name =>
      if String.eqb name "ttl" then Some (VInt ttl)
      else if String.eqb name "new_nonce" then Some (VText new_nonce)
      else None
  | Positional _ =>
      positional (VText (Key token) :: VText (LeaseID token)
                  :: VText (ServerNonce token) :: nil) ph
  end.

(** A backend on which the key is free at attempt [k], where the call is
    granted until [validUntil], and held at every other attempt, where the
    row (false, NULL) cannot be scanned. *)
Definition grants_at (k validUntil : Z) (q : TryAcquire) : Scanned :=
  if q_attempt q =? k then Row true validUntil
  else Scan_acquired (inr (false, None)).

End Sample.

(* ===================================================================== *)
(** * Package pg: the configuration (pg/cfg.go) *)
(* ===================================================================== *)

Module config.

Record PostgresLockerConfig : Type := {
  MigrationSchema : string;
  MigrationTableName : string;
  LockSchema : string;
  LockTableName : string;
  CreateSchemasIfNotExists : bool
}.

(** [strings.Join(msgs, sep)]. *)
Definition strings_Join (msgs : list string) (sep : string) : string :=
  String.concat sep msgs.

(** [append(msgs, m)] under the guard [cond]. *)
Definition append_if (cond : bool) (m : string) (msgs : list string)
  : list string :=
  if cond then (msgs ++ m :: nil)%list else msgs.

(** The messages [Validate] collects, in the order of its tests. *)
Definition Validate_msgs (p : PostgresLockerConfig) : list string :=
  let msgs := nil in
  let msgs :=
    append_if (String.eqb (MigrationSchema p) "")
      "MigrationSchema is required" msgs in
  let msgs :=
    append_if (String.eqb (MigrationTableName p) "")
      "MigrationTableName is required" msgs in
  let msgs :=
    append_if (String.eqb (LockSchema p) "") "LockSchema is required" msgs in
  let msgs :=
    append_if (String.eqb (LockTableName p) "")
      "LockTableName is required" msgs in
  append_if
    (negb (String.eqb (LockTableName p) "")
     && String.eqb (LockTableName p) (MigrationTableName p))
    "LockTableName and MigrationTableName must be different" msgs.

(** [Validate].  The sentinel [ErrInvalidConfig] is declared in a file of
    the package that is not at hand: it is an argument. *)
Definition Validate (ErrInvalidConfig : error) (p : PostgresLockerConfig)
  : option error :=
  let msgs := Validate_msgs p in
  if (0 <? length msgs)%nat then
    Some (fmt_Errorf "%w: %s" ErrInvalidConfig
            (ArgString (strings_Join msgs ", ") :: nil))
  else None.

(** [WithDefaults] sets default values for missing fields. *)
Definition WithDefaults (p : PostgresLockerConfig) : PostgresLockerConfig :=
  {| MigrationSchema :=
       if String.eqb (MigrationSchema p) "" then "public"
       else MigrationSchema p;
     MigrationTableName :=
       if String.eqb (MigrationTableName p) "" then "locker_migrations"
       else MigrationTableName p;
     LockSchema :=
       if String.eqb (LockSchema p) "" then "public" else LockSchema p;
     LockTableName :=
       if String.eqb (LockTableName p) "" then "locker_locks"
       else LockTableName p;
     CreateSchemasIfNotExists := CreateSchemasIfNotExists p |}.

Definition NewPostgresLockerConfig : PostgresLockerConfig :=
  WithDefaults
    {| MigrationSchema := ""; MigrationTableName := ""; LockSchema := "";
       LockTableName := ""; CreateSchemasIfNotExists := true |}.

Definition SetMigrationSchema (v : string) (p : PostgresLockerConfig) :=
  {| MigrationSchema := v; MigrationTableName := MigrationTableName p;
     LockSchema := LockSchema p; LockTableName := LockTableName p;
     CreateSchemasIfNotExists := CreateSchemasIfNotExists p |}.

Definition SetMigrationTableName (v : string) (p : PostgresLockerConfig) :=
  {| MigrationSchema := MigrationSchema p; MigrationTableName := v;
     LockSchema := LockSchema p; LockTableName := LockTableName p;
     CreateSchemasIfNotExists := CreateSchemasIfNotExists p |}.

Definition SetLockSchema (v : string) (p : PostgresLockerConfig) :=
  {| MigrationSchema := MigrationSchema p;
     MigrationTableName := MigrationTableName p;
     LockSchema := v; LockTableName := LockTableName p;
     CreateSchemasIfNotExists := CreateSchemasIfNotExists p |}.

Definition SetLockTableName (v : string) (p : PostgresLockerConfig) :=
  {| MigrationSchema := MigrationSchema p;
     MigrationTableName := MigrationTableName p;
     LockSchema := LockSchema p; LockTableName := v;
     CreateSchemasIfNotExists := CreateSchemasIfNotExists p |}.

Definition SetCreateSchemasIfNotExists (v : bool) (p : PostgresLockerConfig) :=
  {| MigrationSchema := MigrationSchema p;
     MigrationTableName := MigrationTableName p;
     LockSchema := LockSchema p; LockTableName := LockTableName p;
     CreateSchemasIfNotExists := v |}.

End config.

(* ===================================================================== *)
(** * Vocabulary of the further properties *)
(* ===================================================================== *)

Module Protocol.
Import core sql pg.

(** The token a caller holds for the lease [leaseID]/[nonce] on [key]. *)
Definition token_of (key leaseID nonce : string) (validUntil : Z) : LockToken :=
  {| Key := key; LeaseID := leaseID; ValidUntil := validUntil;
     ServerNonce := nonce |}.

(** Every key of the table satisfies the CHECK constraint of the column. *)
Definition keys_checked (tb : gmap string Lease) : Prop :=
  forall k row, tb !! k = Some row -> key_check k = true.

(** The time a trace spends asleep: time.Sleep returns at once for a
    duration that is zero or negative. *)
Fixpoint slept (tr : list event) : Z :=
  match tr with
  | nil => 0
  | Sleep d :: tr' => Z.max 0 d + slept tr'
  | Query _ :: tr' => slept tr'
  end.

(** What holds of every event of a trace of Acquire for [key] and [opts]
    with the identifiers [leaseID] and [nonce]. *)
Definition well_formed_event (key leaseID nonce : string) (opts : LockOptions)
    (ev : event) : Prop :=
  match ev with
  | Query q =>
      q_key q = key /\ q_lease_id q = leaseID /\ q_nonce q = nonce
      /\ q_metadata q = Metadata opts
      /\ q_ttl_ms q = Milliseconds (TTL opts)
      /\ 1 <= q_ttl_ms q <= 600000
      /\ 0 < q_timeout q
      /\ q_timeout q
         = (if RequestTimeout opts <=? 0 then DefaultRequestTimeout
            else RequestTimeout opts)
      /\ 0 <= q_attempt q <= MaxRetries (Retry opts)
  | Sleep d => d <= MaxDelay (Retry opts)
  end.

(** The errors Acquire can return. *)
Definition Acquire_error (e : error) : Prop :=
  Outcome.validation_error e = true
  \/ e = ErrLockAcquisitionFailed
  \/ exists err, e = fmt_Errorf "failed to acquire lock: %w" (Pgx err) nil.

End Protocol.

(* ===================================================================== *)
(** * Properties *)
(* ===================================================================== *)

Import core sql pg Outcome.

(** ** Keys *)

Lemma nonempty_length (s : string) :
  1 <= Z.of_nat (String.length s) -> String.eqb s "" = false.
Proof. destruct s; simpl; [lia | reflexivity]. Qed.

(** A key that passes [ValidateKey] passes the guard of try_acquire_lock
    and the CHECK constraint of the table. *)
Lemma valid_key_passes_sql (key : string) :
  validKeyRegex key = true ->
  (256 <? LENGTH key) || negb (key_regex key) = false /\ key_check key = true.
Proof.
  unfold validKeyRegex, key_check, key_regex, LENGTH.
  intros H.
  apply andb_true_iff in H as [H Hmax].
  apply andb_true_iff in H as [Hchars Hmin].
  apply Z.leb_le in Hmin, Hmax.
  rewrite Hchars, (nonempty_length key Hmin). simpl.
  split.
  - rewrite orb_false_r. apply Z.ltb_ge. exact Hmax.
  - apply andb_true_iff. split; apply Z.leb_le; assumption.
Qed.

(** ** try_acquire_lock *)

(** C1.  For a key of the admitted format, try_acquire_lock acquires
    exactly when the table has no row for the key or the row's valid_until
    is at or before NOW().  It then writes a row with the caller's lease
    id, nonce and metadata and returns acquired = true with valid_until =
    NOW() + ttl + 10 ms, leaving every other key's row as it was.  When
    an unexpired row exists it writes nothing and returns acquired = false
    (and a NULL timestamp), without an error. *)
Theorem try_acquire_lock_spec (now : Z) (key leaseID : string) (ttl_ms : Z)
    (nonce : string) (meta : option (gmap string string))
    (tb : gmap string Lease) :
  validKeyRegex key = true ->
  let free :=
    match tb !! key with
    | None => true
    | Some row => valid_until row <=? now
    end in
  let validUntil := now + ttl_ms * millisecond + 10 * millisecond in
  exists tb' : gmap string Lease,
    try_acquire_lock now key leaseID ttl_ms nonce meta tb
      = inr (tb', (free, if free then Some validUntil else None))
    /\ (free = true ->
        (exists row, tb' !! key = Some row
                     /\ lease_id row = leaseID
                     /\ server_nonce row = nonce
                     /\ metadata row = meta
                     /\ valid_until row = validUntil)
        /\ forall k, k <> key -> tb' !! k = tb !! k)
    /\ (free = false -> tb' = tb).
Proof.
  intros Hkey free validUntil.
  destruct (valid_key_passes_sql key Hkey) as [Hguard Hcheck].
  unfold try_acquire_lock. rewrite Hguard.
  subst free validUntil.
  destruct (tb !! key) as [row|] eqn:Hrow.
  - destruct (valid_until row <=? now) eqn:Hexp; simpl.
    + eexists. split; [reflexivity|]. split; [|discriminate].
      intros _. split.
      * eexists. rewrite lookup_insert_eq. repeat split; reflexivity.
      * intros k Hk. rewrite lookup_insert_ne by congruence. reflexivity.
    + exists tb. split; [reflexivity|]. split; [discriminate|reflexivity].
  - rewrite Hcheck. simpl.
    eexists. split; [reflexivity|]. split; [|discriminate].
    intros _. split.
    + eexists. rewrite lookup_insert_eq. repeat split; reflexivity.
    + intros k Hk. rewrite lookup_insert_ne by congruence. reflexivity.
Qed.

(** A key outside the format is refused by the function's own guard, with
    SQLSTATE 22023 and no write. *)
Lemma try_acquire_lock_guard (now : Z) (key leaseID : string) (ttl_ms : Z)
    (nonce : string) (meta : option (gmap string string))
    (tb : gmap string Lease) :
  validKeyRegex key = false ->
  try_acquire_lock now key leaseID ttl_ms nonce meta tb = inl (PgError "22023").
Proof.
  unfold validKeyRegex, try_acquire_lock, key_regex, LENGTH. intros H.
  destruct (all_key_chars key); simpl in *;
    [|rewrite orb_true_r; reflexivity].
  destruct (256 <? Z.of_nat (String.length key)) eqn:Hlen; [reflexivity|].
  apply Z.ltb_ge in Hlen. apply Z.leb_le in Hlen. rewrite Hlen in H.
  rewrite andb_true_r in H. apply Z.leb_gt in H.
  destruct key; [reflexivity|simpl in H; lia].
Qed.

Lemma try_acquire_lock_spec_witness :
  exists tb' : gmap string Lease,
    try_acquire_lock 1000 "job-42" "lease-B" 10000 "nonce-B" None
      (locks (Sample.held_by_A 1000))
    = inr (tb', (true, Some 10011000)).
Proof.
  destruct (try_acquire_lock_spec 1000 "job-42" "lease-B" 10000 "nonce-B" None
              (locks (Sample.held_by_A 1000)) eq_refl) as (tb' & H & _).
  exists tb'. exact H.
Defined.

(** ** Release *)

Lemma run_open {A : Type} (p : Pool)
    (stmt : gmap string Lease -> pgx_error + (gmap string Lease * A)) :
  closed p = false ->
  run p stmt =
    match stmt (locks p) with
    | inl e => (p, inl e)
    | inr (tb, a) => ({| closed := false; locks := tb |}, inr a)
    end.
Proof.
  intros H. unfold run. rewrite H.
  destruct (stmt (locks p)) as [e|[tb a]]; reflexivity.
Qed.

Lemma run_closed {A : Type} (p : Pool)
    (stmt : gmap string Lease -> pgx_error + (gmap string Lease * A)) :
  closed p = true -> run p stmt = (p, inl ErrClosedPool).
Proof. intros H. unfold run. rewrite H. reflexivity. Qed.

Lemma pool_eta (p : Pool) :
  closed p = false -> {| closed := false; locks := locks p |} = p.
Proof. destruct p; simpl; intros ->; reflexivity. Qed.

(** C4.  On an open pool, Release deletes the row of the token's key when
    the row's lease id and server nonce are the token's, and returns nil;
    in every other case (no row for the key, or a row under another lease
    id or nonce) no row is affected, the table is left as it was and the
    error is ErrLockOwnershipMismatch. *)
Theorem Release_spec (p : Pool) (token : LockToken) :
  closed p = false ->
  (forall row,
      locks p !! Key token = Some row ->
      lease_id row = LeaseID token ->
      server_nonce row = ServerNonce token ->
      Release p token
      = ({| closed := false; locks := delete (Key token) (locks p) |}, None))
  /\ ((forall row,
          locks p !! Key token = Some row ->
          lease_id row <> LeaseID token \/ server_nonce row <> ServerNonce token) ->
      Release p token = (p, Some ErrLockOwnershipMismatch)).
Proof.
  intros Hopen. unfold Release. rewrite (run_open _ _ Hopen).
  unfold releaseLockSQL. split.
  - intros row -> Hl Hn. rewrite Hl, Hn, !String.eqb_refl. reflexivity.
  - intros Hmis. destruct (locks p !! Key token) as [row|] eqn:Hrow.
    + destruct (Hmis row eq_refl) as [Hne|Hne];
        apply String.eqb_neq in Hne; rewrite Hne;
        rewrite ?andb_false_r; simpl; rewrite (pool_eta p Hopen); reflexivity.
    + simpl. rewrite (pool_eta p Hopen). reflexivity.
Qed.

Lemma Release_spec_witness :
  Release (Sample.held_by_A 5000) (Sample.token_A 5000)
    = ({| closed := false; locks := delete "job-42" (locks (Sample.held_by_A 5000)) |}, None)
  /\ Release (Sample.held_by_A 5000) Sample.token_B
    = (Sample.held_by_A 5000, Some ErrLockOwnershipMismatch).
Proof.
  destruct (Release_spec (Sample.held_by_A 5000) (Sample.token_A 5000) eq_refl)
    as [Hdel _].
  destruct (Release_spec (Sample.held_by_A 5000) Sample.token_B eq_refl)
    as [_ Hkeep].
  split.
  - apply (Hdel (Sample.lease_A 5000)); reflexivity.
  - apply Hkeep. intros row Hrow.
    assert (row = Sample.lease_A 5000) as ->
      by (vm_compute in Hrow; injection Hrow as <-; reflexivity).
    left. discriminate.
Defined.

(** ** IsHeld *)

(** C9.  IsHeld reads the token's key and nothing else of the token: two
    tokens with the same key, whatever their lease ids, nonces and
    validUntil, get the same (held, remainingTTL, error) from the same
    backend state at the same time.  In particular, on an open pool, a row
    for the key whose valid_until is after NOW() makes both report held =
    true with no error, whoever holds the lease. *)
Theorem IsHeld_depends_on_key_only (p : Pool) (now : Z) (t1 t2 : LockToken) :
  Key t1 = Key t2 ->
  IsHeld p now t1 = IsHeld p now t2
  /\ forall row,
      closed p = false ->
      locks p !! Key t1 = Some row ->
      now < valid_until row ->
      IsHeld p now t2
      = (true,
         wrap64 (int64_of_float (EXTRACT_EPOCH (valid_until row - now)) * Second),
         None).
Proof.
  intros Hk. unfold IsHeld. rewrite <- Hk. split; [reflexivity|].
  intros row Hopen Hrow Hlt.
  unfold query, isHeldLockSQL. rewrite Hopen, Hrow. simpl.
  apply Z.ltb_lt in Hlt. rewrite Hlt. reflexivity.
Qed.

Lemma IsHeld_depends_on_key_only_witness :
  IsHeld (Sample.held_by_A 7500000) 5000000 (Sample.token_A 7500000)
    = IsHeld (Sample.held_by_A 7500000) 5000000 Sample.token_B
  /\ IsHeld (Sample.held_by_A 7500000) 5000000 Sample.token_B
    = (true, 2 * Second, None).
Proof.
  destruct (IsHeld_depends_on_key_only (Sample.held_by_A 7500000) 5000000
              (Sample.token_A 7500000) Sample.token_B eq_refl) as [Heq Hheld].
  split; [exact Heq|].
  apply (Hheld (Sample.lease_A 7500000)); reflexivity.
Defined.

(** ** HealthCheck *)

(** C10.  Whatever the probe reports, the report of HealthCheck carries a
    non-nil Error: the error errors.New builds from the message.  When the
    probe succeeds (no error, result 1) the status is green and the error
    is the one made from the empty message. *)
Theorem HealthCheck_Error_never_nil (probe : pgx_error + Z)
    (latency acquiredConns : Z) :
  (exists msg, Error (HealthCheck probe latency acquiredConns)
               = Some (errors_New msg))
  /\ HealthCheck (inr 1) latency acquiredConns
     = {| Status := StatusGreen;
          Latency := latency;
          Throughput := float64_of_int acquiredConns;
          Error := Some (errors_New "") |}.
Proof.
  split; [|reflexivity].
  unfold HealthCheck.
  destruct probe as [e|v]; simpl; [eexists; reflexivity|].
  destruct (negb (v =? 1)); eexists; reflexivity.
Qed.

(** ** Acquire: the retry loop *)

(** Rounds that meet contention only prepend their calls and sleeps. *)
Lemma acquire_loop_contended (backend : TryAcquire -> Scanned)
    (key leaseID nonce : string) (metadata : option (gmap string string))
    (opts : LockOptions) (i : nat) :
  forall (n : nat) (a : Z),
    (forall j, (j < i)%nat ->
       exists v,
         backend (attempt_query key leaseID nonce metadata opts (a + Z.of_nat j))
         = Row false v) ->
    acquire_loop backend key leaseID nonce metadata opts (i + n)%nat a
    = ((contended_rounds (attempt_query key leaseID nonce metadata opts)
          (Retry opts) a i
        ++ fst (acquire_loop backend key leaseID nonce metadata opts n
                  (a + Z.of_nat i)))%list,
       snd (acquire_loop backend key leaseID nonce metadata opts n
              (a + Z.of_nat i))).
Proof.
  induction i as [|i IH]; intros n a Hc.
  - simpl. rewrite Z.add_0_r.
    destruct (acquire_loop backend key leaseID nonce metadata opts n a);
      reflexivity.
  - destruct (Hc O ltac:(lia)) as [v Hv].
    rewrite Z.add_0_r in Hv.
    simpl. rewrite Hv, (IH n (a + 1)).
    + replace (a + 1 + Z.of_nat i) with (a + Z.pos (Pos.of_succ_nat i)) by lia.
      reflexivity.
    + intros j Hj. destruct (Hc (S j) ltac:(lia)) as [w Hw].
      exists w. replace (a + 1 + Z.of_nat j) with (a + Z.of_nat (S j)) by lia.
      exact Hw.
Qed.

Lemma Acquire_valid (backend : TryAcquire -> Scanned) (leaseID nonce key : string)
    (opts opts' : LockOptions) :
  ValidateKey key = None ->
  Validate opts = (opts', None) ->
  Acquire backend leaseID nonce key opts
  = acquire_loop backend key leaseID nonce (Metadata opts') opts'
      (Z.to_nat (MaxRetries (Retry opts') + 1)) 0.
Proof.
  intros Hk Hv. unfold Acquire. rewrite Hk, Hv. reflexivity.
Qed.

(** The loop as written, for any answers of the driver.  With valid
    inputs, if the attempts before [i] were answered acquired = false
    without an error, each was followed by a sleep of its backoff delay, and
    then:
    - if attempt [i] is answered acquired = true, Acquire returns the token
      at once, with no further call;
    - if attempt [i] is answered by an error, Acquire stops there and
      returns that error, wrapped;
    - if attempt [i] is the last one (i = MaxRetries) and is answered
      acquired = false too, Acquire returns ErrLockAcquisitionFailed.
    [backend_on] never gives the answer acquired = false
    ([backend_on_never_contended] below). *)
Theorem Acquire_retry_loop (backend : TryAcquire -> Scanned)
    (leaseID nonce key : string) (opts opts' : LockOptions) (i : nat) :
  ValidateKey key = None ->
  Validate opts = (opts', None) ->
  Z.of_nat i <= MaxRetries (Retry opts') ->
  let q := attempt_query key leaseID nonce (Metadata opts') opts' in
  let contended := contended_rounds q (Retry opts') 0 in
  (forall j, (j < i)%nat -> exists v, backend (q (Z.of_nat j)) = Row false v) ->
  (forall validUntil,
      backend (q (Z.of_nat i)) = Row true validUntil ->
      Acquire backend leaseID nonce key opts
      = ((contended i ++ Query (q (Z.of_nat i)) :: nil)%list,
         inr {| Key := key; LeaseID := leaseID;
                ValidUntil := validUntil; ServerNonce := nonce |}))
  /\ (forall err,
      backend (q (Z.of_nat i)) = Failed err ->
      Acquire backend leaseID nonce key opts
      = ((contended i ++ Query (q (Z.of_nat i)) :: nil)%list,
         inl (fmt_Errorf "failed to acquire lock: %w" (Pgx err) nil)))
  /\ ((exists v, backend (q (Z.of_nat i)) = Row false v) ->
      Z.of_nat i = MaxRetries (Retry opts') ->
      Acquire backend leaseID nonce key opts
      = (contended (S i), inl ErrLockAcquisitionFailed)).
Proof.
  intros Hk Hv Hi q contended Hc.
  rewrite (Acquire_valid _ _ _ _ _ _ Hk Hv).
  assert (Hc0 : forall j, (j < i)%nat ->
                  exists v, backend (q (0 + Z.of_nat j)) = Row false v)
    by (intros j Hj; rewrite Z.add_0_l; auto).
  split; [|split].
  - intros validUntil Hg.
    replace (Z.to_nat (MaxRetries (Retry opts') + 1))
      with (i + S (Z.to_nat (MaxRetries (Retry opts') - Z.of_nat i)))%nat by lia.
    rewrite (acquire_loop_contended backend key leaseID nonce _ opts' i _ 0 Hc0).
    rewrite Z.add_0_l. simpl. fold q. rewrite Hg. reflexivity.
  - intros err He.
    replace (Z.to_nat (MaxRetries (Retry opts') + 1))
      with (i + S (Z.to_nat (MaxRetries (Retry opts') - Z.of_nat i)))%nat by lia.
    rewrite (acquire_loop_contended backend key leaseID nonce _ opts' i _ 0 Hc0).
    rewrite Z.add_0_l. simpl. fold q. rewrite He. reflexivity.
  - intros Hlast Hmax.
    replace (Z.to_nat (MaxRetries (Retry opts') + 1)) with (S i + 0)%nat by lia.
    rewrite (acquire_loop_contended backend key leaseID nonce _ opts' (S i) 0%nat 0).
    + simpl. rewrite app_nil_r. reflexivity.
    + intros j Hj. rewrite Z.add_0_l.
      destruct (Nat.eq_dec j i) as [->|Hne]; [exact Hlast|].
      apply Hc. lia.
Qed.

(** The row of try_acquire_lock is (true, a timestamp) or (false, NULL). *)
Lemma try_acquire_lock_rows (now : Z) (key leaseID : string) (ttl_ms : Z)
    (nonce : string) (meta : option (gmap string string))
    (tb tb1 : gmap string Lease) (row : bool * option Z) :
  try_acquire_lock now key leaseID ttl_ms nonce meta tb = inr (tb1, row) ->
  (exists vu, row = (true, Some vu)) \/ row = (false, None).
Proof.
  unfold try_acquire_lock.
  destruct ((256 <? LENGTH key) || negb (key_regex key)); [discriminate|].
  destruct (tb !! key) as [old|].
  - destruct (valid_until old <=? now); simpl; intros H; inversion H; subst;
      [left; eexists; reflexivity | right; reflexivity].
  - destruct (key_check key); simpl; intros H; inversion H; subst.
    left; eexists; reflexivity.
Qed.

(** The repository's backend never answers acquired = false: a call is
    granted or fails. *)
Lemma backend_on_never_contended (clock : Z -> Z) (tb : gmap string Lease)
    (q : TryAcquire) :
  (exists vu, backend_on clock tb q = Row true vu)
  \/ (exists err, backend_on clock tb q = Failed err).
Proof.
  unfold backend_on.
  destruct (try_acquire_lock _ _ _ _ _ _ tb) as [e|[tb1 row]] eqn:H.
  - right. eexists. reflexivity.
  - apply try_acquire_lock_rows in H as [[vu ->]| ->].
    + left. eexists. reflexivity.
    + right. eexists. reflexivity.
Qed.

(** On that backend a loop with a round left makes one call and ends. *)
Lemma acquire_loop_on_backend (clock : Z -> Z) (tb : gmap string Lease)
    (key leaseID nonce : string) (metadata : option (gmap string string))
    (opts : LockOptions) (n : nat) (a : Z) :
  exists r,
    acquire_loop (backend_on clock tb) key leaseID nonce metadata opts (S n) a
    = (Query (attempt_query key leaseID nonce metadata opts a) :: nil, r)
    /\ reports r ErrLockAcquisitionFailed = false.
Proof.
  simpl.
  destruct (backend_on_never_contended clock tb
              (attempt_query key leaseID nonce metadata opts a))
    as [[vu ->]|[err ->]]; eexists; split; reflexivity.
Qed.

(** C5 (the code departs from the claim).  On the backend of the repository
    the row of a contended key is (false, NULL), which Scan cannot read
    into the time.Time of Acquire:
    - with job-42 held by another lease until t = 600 s, Acquire at t = 1 s
      with MaxRetries = 5 makes one call and returns the scan error wrapped
      as "failed to acquire lock", without a sleep or a second attempt;
    - whatever the table, the clock and the arguments, Acquire on this
      backend makes at most one call, never sleeps, and never returns an
      error that is or wraps ErrLockAcquisitionFailed. *)
Theorem Acquire_contention_aborts :
  Acquire (backend_on (fun _ => 1000000) (locks (Sample.held_by_A 600000000)))
    "lease-B" "nonce-B" "job-42" Sample.job42_options
  = (Query (Sample.job42_call 0) :: nil,
     inl (fmt_Errorf "failed to acquire lock: %w"
            (Pgx (ScanError "cannot scan NULL into *time.Time")) nil))
  /\ (forall clock tb leaseID nonce key opts,
        (backend_calls
           (fst (Acquire (backend_on clock tb) leaseID nonce key opts)) <= 1)%nat
        /\ Protocol.slept
             (fst (Acquire (backend_on clock tb) leaseID nonce key opts)) = 0
        /\ reports (snd (Acquire (backend_on clock tb) leaseID nonce key opts))
             ErrLockAcquisitionFailed = false).
Proof.
  split; [vm_compute; reflexivity|].
  intros clock tb leaseID nonce key opts.
  unfold Acquire, ValidateKey, Validate.
  destruct (negb (validKeyRegex key)); [simpl; repeat split; lia|].
  destruct ((TTL opts <? MinLockTTL) || (MaxLockTTL <? TTL opts));
    [simpl; repeat split; lia|].
  set (o' := if RequestTimeout opts <=? 0 then _ else opts).
  unfold RetryStrategy_Validate.
  destruct (MaxRetries (Retry o') <? 0) eqn:Hm; [simpl; repeat split; lia|].
  repeat match goal with
         | |- context [if ?b then Some _ else _] =>
             destruct b; [simpl; repeat split; lia|]
         end.
  apply Z.ltb_ge in Hm. simpl.
  replace (Z.to_nat (MaxRetries (Retry o') + 1))
    with (S (Z.to_nat (MaxRetries (Retry o')))) by lia.
  destruct (acquire_loop_on_backend clock tb key leaseID nonce (Metadata o') o'
              (Z.to_nat (MaxRetries (Retry o'))) 0) as (r & -> & Hr).
  simpl. repeat split; [lia|exact Hr].
Qed.

(** ** Acquire: validation *)

(** A loop with at least one round left starts with a call. *)
Lemma acquire_loop_calls_first (backend : TryAcquire -> Scanned)
    (key leaseID nonce : string) (metadata : option (gmap string string))
    (opts : LockOptions) (n : nat) (a : Z) :
  exists tr r,
    acquire_loop backend key leaseID nonce metadata opts (S n) a
    = (Query (attempt_query key leaseID nonce metadata opts a) :: tr, r).
Proof.
  simpl.
  destruct (backend _) as [[|] v|err]; try (eexists; eexists; reflexivity).
  destruct (acquire_loop _ _ _ _ _ _ n (a + 1)) as [tr r].
  eexists; eexists; reflexivity.
Qed.

(** The claim of C6 as stated fails: with a base delay (and a maximum delay)
    of zero, which the stated bounds exclude, Acquire does not fail
    validation; it calls the backend and returns the token. *)
Lemma Acquire_accepts_zero_BaseDelay :
  spec_invalid_input "job-42" Sample.zero_delay_options = true
  /\ fails_validation
       (Acquire (Sample.grants_at 0 777) "lease-B" "nonce-B" "job-42"
          Sample.zero_delay_options) = false
  /\ Acquire (Sample.grants_at 0 777) "lease-B" "nonce-B" "job-42"
       Sample.zero_delay_options
     = (Query (attempt_query "job-42" "lease-B" "nonce-B" None
                 Sample.zero_delay_options 0) :: nil,
        inr {| Key := "job-42"; LeaseID := "lease-B"; ValidUntil := 777;
               ServerNonce := "nonce-B" |}).
Proof. repeat split; vm_compute; reflexivity. Qed.

(** The inputs Acquire rejects are those that fail one of the comparisons
    of the code: it fails fast, with a validation error and before any
    backend call, exactly on them, and calls the backend at least once on
    every other input. *)
Lemma Acquire_rejects_by_comparisons (backend : TryAcquire -> Scanned)
    (leaseID nonce key : string) (opts : LockOptions) :
  fails_validation (Acquire backend leaseID nonce key opts)
    = rejected_input key opts
  /\ Nat.eqb (backend_calls (fst (Acquire backend leaseID nonce key opts))) 0
    = rejected_input key opts.
Proof.
  unfold Acquire, rejected_input, ValidateKey, Validate.
  destruct (validKeyRegex key); simpl; [|split; reflexivity].
  destruct (TTL opts <? MinLockTTL); simpl; [split; reflexivity|].
  destruct (MaxLockTTL <? TTL opts); simpl; [split; reflexivity|].
  set (o' := if RequestTimeout opts <=? 0 then _ else opts).
  assert (Hr : Retry o' = Retry opts)
    by (subst o'; destruct (RequestTimeout opts <=? 0); reflexivity).
  unfold RetryStrategy_Validate. rewrite Hr.
  destruct (MaxRetries (Retry opts) <? 0) eqn:Hm; simpl; [split; reflexivity|].
  destruct (PrimFloat.ltb (JitterFactor (Retry opts)) 0); simpl;
    [split; reflexivity|].
  destruct (PrimFloat.ltb 1 (JitterFactor (Retry opts))); simpl;
    [split; reflexivity|].
  destruct (PrimFloat.ltb (BackoffFactor (Retry opts)) 1); simpl;
    [split; reflexivity|].
  apply Z.ltb_ge in Hm.
  replace (Z.to_nat (MaxRetries (Retry opts) + 1))
    with (S (Z.to_nat (MaxRetries (Retry opts)))) by lia.
  destruct (acquire_loop_calls_first backend key leaseID nonce (Metadata o') o'
              (Z.to_nat (MaxRetries (Retry opts))) 0) as (tr & r & ->).
  split; reflexivity.
Qed.

(** Comparisons of float64 values that are numbers. *)
Lemma SFcompare_antisym (f1 f2 : spec_float) :
  SFcompare f2 f1 = option_map CompOpp (SFcompare f1 f2).
Proof.
  destruct f1 as [s1|s1| |s1 m1 e1], f2 as [s2|s2| |s2 m2 e2]; simpl;
    try reflexivity;
    try (destruct s1; reflexivity); try (destruct s2; reflexivity);
    try (destruct s1, s2; reflexivity).
  pose proof (Pos.compare_cont_antisym m1 m2 Eq) as Hm. simpl in Hm.
  destruct s1, s2; simpl; try reflexivity;
    rewrite (Z.compare_antisym e1 e2);
    destruct (e1 ?= e2); simpl; try reflexivity;
    rewrite <- Hm;
    destruct (Pos.compare_cont Eq m1 m2); reflexivity.
Qed.

Lemma not_NaN (f : float) : math_IsNaN f = false -> Prim2SF f <> S754_nan.
Proof.
  unfold math_IsNaN. rewrite FloatAxioms.eqb_spec. intros H Hn.
  rewrite Hn in H. discriminate.
Qed.

Lemma ltb_negb_leb (x y : float) :
  Prim2SF x <> S754_nan -> Prim2SF y <> S754_nan ->
  PrimFloat.ltb x y = negb (PrimFloat.leb y x).
Proof.
  intros Hx Hy.
  rewrite FloatAxioms.ltb_spec, FloatAxioms.leb_spec.
  unfold SFltb, SFleb. rewrite (SFcompare_antisym (Prim2SF x) (Prim2SF y)).
  destruct (SFcompare (Prim2SF x) (Prim2SF y)) as [[| |]|] eqn:Hc;
    try reflexivity.
  destruct (Prim2SF x) as [?|?| |? ? ?], (Prim2SF y) as [?|?| |? ? ?];
    simpl in Hc; try discriminate; congruence.
Qed.

(** For factors that are numbers, the comparisons of the code reject the
    inputs of the amended claim and no other. *)
Lemma rejected_input_amended (key : string) (opts : LockOptions) :
  math_IsNaN (JitterFactor (Retry opts)) = false ->
  math_IsNaN (BackoffFactor (Retry opts)) = false ->
  rejected_input key opts = amended_invalid_input key opts.
Proof.
  intros HJ HB. apply not_NaN in HJ, HB.
  assert (H0 : Prim2SF 0 <> S754_nan) by (vm_compute; discriminate).
  assert (H1 : Prim2SF 1 <> S754_nan) by (vm_compute; discriminate).
  unfold rejected_input, amended_invalid_input.
  rewrite (ltb_negb_leb _ _ HJ H0), (ltb_negb_leb _ _ H1 HJ),
    (ltb_negb_leb _ _ HB H1), !Z.ltb_antisym.
  destruct (validKeyRegex key), (MinLockTTL <=? TTL opts),
    (TTL opts <=? MaxLockTTL), (0 <=? MaxRetries (Retry opts)),
    (PrimFloat.leb 0 (JitterFactor (Retry opts))),
    (PrimFloat.leb (JitterFactor (Retry opts)) 1),
    (PrimFloat.leb 1 (BackoffFactor (Retry opts))); reflexivity.
Qed.

(** C6 (amended).  For a retry strategy whose jitter and backoff factors
    are numbers, Acquire fails fast, with a validation error and before any
    backend call, exactly when the key does not match
    [[A-Za-z0-9_-]{1,256}], the TTL is outside [1ms, 10min], or the retry
    strategy breaks maxRetries >= 0, backoffFactor >= 1 or jitterFactor in
    [0,1].  BaseDelay and MaxDelay are not examined.  On every other such
    input Acquire calls the backend at least once. *)
Theorem Acquire_validation (backend : TryAcquire -> Scanned)
    (leaseID nonce key : string) (opts : LockOptions) :
  math_IsNaN (JitterFactor (Retry opts)) = false ->
  math_IsNaN (BackoffFactor (Retry opts)) = false ->
  fails_validation (Acquire backend leaseID nonce key opts)
    = amended_invalid_input key opts
  /\ Nat.eqb (backend_calls (fst (Acquire backend leaseID nonce key opts))) 0
    = amended_invalid_input key opts.
Proof.
  intros HJ HB.
  rewrite <- (rejected_input_amended key opts HJ HB).
  apply Acquire_rejects_by_comparisons.
Qed.

Lemma Acquire_validation_witness :
  (fails_validation
     (Acquire (backend_on (fun _ => 0) ∅) "lease-B" "nonce-B" "job 42"
        Sample.job42_options) = true
   /\ Nat.eqb (backend_calls
                 (fst (Acquire (backend_on (fun _ => 0) ∅) "lease-B" "nonce-B"
                         "job 42" Sample.job42_options))) 0 = true)
  /\ (fails_validation
        (Acquire (backend_on (fun _ => 0) ∅) "lease-B" "nonce-B" "job-42"
           Sample.job42_options) = false
      /\ Nat.eqb (backend_calls
                    (fst (Acquire (backend_on (fun _ => 0) ∅) "lease-B"
                            "nonce-B" "job-42" Sample.job42_options))) 0
         = false).
Proof.
  split.
  - apply (Acquire_validation (backend_on (fun _ => 0) ∅) "lease-B" "nonce-B"
             "job 42" Sample.job42_options); reflexivity.
  - apply (Acquire_validation (backend_on (fun _ => 0) ∅) "lease-B" "nonce-B"
             "job-42" Sample.job42_options); reflexivity.
Defined.

(** The boundaries the specification lists: a TTL of 0 and of 11 minutes
    fail, 1 ms and 10 min pass; a key with a space and a key of 257
    characters fail. *)
Example validation_boundaries :
  let s := Sample.strategy 2 in
  rejected_input "job-42" (Sample.options 0 s) = true
  /\ rejected_input "job-42" (Sample.options (11 * Minute) s) = true
  /\ rejected_input "job-42" (Sample.options (1 * Millisecond) s) = false
  /\ rejected_input "job-42" (Sample.options (10 * Minute) s) = false
  /\ rejected_input "job 42" (Sample.options (10 * Second) s) = true
  /\ rejected_input Sample.long_key (Sample.options (10 * Second) s) = true.
Proof. repeat split; vm_compute; reflexivity. Qed.

(** ** CalculateBackoff *)

(** With factor 2, base 100 ms and cap 10 s, the delays of the attempts 0
    to 36 are the curve min(maxDelay, baseDelay * 2^i). *)
Lemma CalculateBackoff_doubling (i : Z) :
  0 <= i <= 36 ->
  CalculateBackoff (Sample.strategy 2) i
  = Z.min (10 * Second) (100 * Millisecond * 2 ^ i).
Proof.
  intros Hi.
  assert (Hall : forallb
            (fun n => let i := Z.of_nat n in
                      CalculateBackoff (Sample.strategy 2) i
                      =? Z.min (10 * Second) (100 * Millisecond * 2 ^ i))
            (seq 0 37) = true) by (vm_compute; reflexivity).
  rewrite forallb_forall in Hall.
  specialize (Hall (Z.to_nat i)).
  rewrite Z2Nat.id in Hall by lia.
  apply Z.eqb_eq, Hall, in_seq. lia.
Qed.

(** C7 (the code departs from the claim).  The multiplier
    math.Pow(factor, attempt) is converted to an integer Duration before
    the multiplication, and the product is an int64 product:
    - with factor 1.5 the delay of attempt 1 is 100 ms, where
      min(maxDelay, baseDelay * 1.5) is 150 ms;
    - with factor 2 the product of attempt 37 wraps around to a negative
      delay, where min(maxDelay, baseDelay * 2^37) is maxDelay = 10 s. *)
Theorem CalculateBackoff_off_the_curve :
  JitterFactor (Sample.strategy 1.5) = 0%float
  /\ CalculateBackoff (Sample.strategy 1.5) 1 = 100 * Millisecond
  /\ Z.min (10 * Second) (100 * Millisecond * 3 / 2) = 150 * Millisecond
  /\ CalculateBackoff (Sample.strategy 2) 37 = -4702848726509551616
  /\ Z.min (10 * Second) (100 * Millisecond * 2 ^ 37) = 10 * Second.
Proof. repeat split; vm_compute; reflexivity. Qed.

(** ** Close *)

(** No round of the retry loop produces ErrAdapterClosed. *)
Lemma acquire_loop_never_ErrAdapterClosed (backend : TryAcquire -> Scanned)
    (key leaseID nonce : string) (metadata : option (gmap string string))
    (opts : LockOptions) (n : nat) :
  forall a,
    reports (snd (acquire_loop backend key leaseID nonce metadata opts n a))
      ErrAdapterClosed = false.
Proof.
  induction n as [|n IH]; intros a; simpl; [reflexivity|].
  destruct (backend _) as [[|] v|err]; simpl; try reflexivity.
  specialize (IH (a + 1)).
  destruct (acquire_loop _ _ _ _ _ _ n (a + 1)) as [tr r]. exact IH.
Qed.

Lemma Acquire_never_ErrAdapterClosed (backend : TryAcquire -> Scanned)
    (leaseID nonce key : string) (opts : LockOptions) :
  reports (snd (Acquire backend leaseID nonce key opts)) ErrAdapterClosed = false.
Proof.
  unfold Acquire, ValidateKey, Validate.
  destruct (negb (validKeyRegex key)); [reflexivity|].
  destruct ((TTL opts <? MinLockTTL) || (MaxLockTTL <? TTL opts));
    [reflexivity|].
  unfold RetryStrategy_Validate.
  repeat match goal with
         | |- context [if ?b then Some _ else _] => destruct b; [reflexivity|]
         end.
  apply acquire_loop_never_ErrAdapterClosed.
Qed.

(** C8 (the code departs from the claim).  Close marks the pool closed and
    returns nil, and closing again changes nothing.  After Close, Release,
    Refresh and IsHeld fail with the error of the closed pool, passed on as
    it is, and not with ErrAdapterClosed; and Acquire, whatever the driver
    answers, returns no error that is or wraps ErrAdapterClosed. *)
Theorem closed_adapter_errors (p : Pool) (now : Z) (token : LockToken)
    (newTTL : Z) (backend : TryAcquire -> Scanned) (leaseID nonce key : string)
    (opts : LockOptions) :
  Close (fst (Close p)) = Close p
  /\ Release (fst (Close p)) token = (fst (Close p), Some (Pgx ErrClosedPool))
  /\ Refresh (fst (Close p)) now token newTTL
     = (fst (Close p), inl (Pgx ErrClosedPool))
  /\ IsHeld (fst (Close p)) now token = (false, 0, Some (Pgx ErrClosedPool))
  /\ errors_Is (Pgx ErrClosedPool) ErrAdapterClosed = false
  /\ reports (snd (Acquire backend leaseID nonce key opts)) ErrAdapterClosed
     = false.
Proof.
  repeat split; try reflexivity.
  apply Acquire_never_ErrAdapterClosed.
Qed.

(** ** Refresh *)

(** As Refresh calls it, refreshLockSQL has no value for [$ttl] and
    [$new_nonce]: the statement fails and the table is as before. *)
Lemma Refresh_fails (p : Pool) (now : Z) (token : LockToken) (newTTL : Z) :
  Refresh p now token newTTL
  = (p, inl (Pgx (if closed p then ErrClosedPool else PgError "42601"))).
Proof.
  unfold Refresh, Refresh_with, run.
  destruct (closed p); reflexivity.
Qed.

(** Whatever the driver makes of the placeholders, a token Refresh returns
    carries the server nonce of the token it was given. *)
Lemma Refresh_with_keeps_nonce (resolve : placeholder -> option value)
    (p : Pool) (now : Z) (token : LockToken) :
  match snd (Refresh_with resolve p now token) with
  | inr token' =>
      ServerNonce token' = ServerNonce token
      /\ LeaseID token' = LeaseID token /\ Key token' = Key token
  | inl _ => True
  end.
Proof.
  unfold Refresh_with.
  destruct (run p (refreshLockSQL resolve now)) as [p' rows].
  destruct (Scan rows) as [err|v].
  - destruct (errors_Is (Pgx err) (Pgx ErrNoRows)); exact I.
  - repeat split.
Qed.

(** C2 (the code departs from the claim).  A lock held by A until t = 600 s,
    refreshed at t = 0 with A's own token:
    - Refresh returns the server's error for the statement; the lease keeps
      its valid_until and its nonce;
    - no token Refresh returns, under any resolution of the placeholders,
      has a nonce other than the one presented;
    - were [$ttl] and [$new_nonce] given values (1 ms, nonce-2), the row
      would get nonce-2 and valid_until = 1 ms, earlier than before, and the
      token returned would still carry nonce-A, which the row no longer
      matches: releasing with the returned token is an ownership mismatch. *)
Theorem Refresh_does_not_rotate :
  Refresh (Sample.held_by_A 600000000) 0 (Sample.token_A 600000000) (1 * Millisecond)
  = (Sample.held_by_A 600000000, inl (Pgx (PgError "42601")))
  /\ (forall resolve p now token,
        match snd (Refresh_with resolve p now token) with
        | inr token' => ServerNonce token' = ServerNonce token
        | inl _ => True
        end)
  /\ (let resolve := Sample.resolving 1 "nonce-2" (Sample.token_A 600000000) in
      let '(p', r) :=
        Refresh_with resolve (Sample.held_by_A 600000000) 0
          (Sample.token_A 600000000) in
      r = inr {| Key := "job-42"; LeaseID := "lease-A"; ValidUntil := 1000;
                 ServerNonce := "nonce-A" |}
      /\ locks p' !! "job-42"
         = Some {| lease_id := "lease-A"; valid_until := 1000;
                   server_nonce := "nonce-2"; metadata := None;
                   created_at := 0; updated_at := 0 |}
      /\ Release p' {| Key := "job-42"; LeaseID := "lease-A"; ValidUntil := 1000;
                       ServerNonce := "nonce-A" |}
         = (p', Some ErrLockOwnershipMismatch)).
Proof.
  split; [apply Refresh_fails|]. split.
  - intros resolve p now token.
    pose proof (Refresh_with_keeps_nonce resolve p now token) as H.
    destruct (snd (Refresh_with resolve p now token)); [exact I|apply H].
  - vm_compute. repeat split.
Qed.

(** C3 (the code departs from the claim).  A lease of A that expired one
    second ago (valid_until = 9 s, NOW() = 10 s), refreshed with A's token
    and a TTL of 10 s:
    - Refresh fails with the server's error for the statement, which is not
      ErrRefreshTooLate;
    - were [$ttl] and [$new_nonce] given values (10 s, nonce-2), the
      predicate valid_until > NOW() - 0.15 * ttl would hold (the lease is
      less than 1.5 s past its expiry) and the expired lease would be
      extended to NOW() + 10 s;
    - under the same reading a lease with one millisecond left (inside the
      last 15% of its TTL) is extended as well. *)
Theorem Refresh_past_expiry :
  Refresh (Sample.held_by_A 9000000) 10000000 (Sample.token_A 9000000) (10 * Second)
  = (Sample.held_by_A 9000000, inl (Pgx (PgError "42601")))
  /\ reports (snd (Refresh (Sample.held_by_A 9000000) 10000000
                     (Sample.token_A 9000000) (10 * Second)))
       ErrRefreshTooLate = false
  /\ snd (Refresh_with (Sample.resolving 10000 "nonce-2" (Sample.token_A 9000000))
            (Sample.held_by_A 9000000) 10000000 (Sample.token_A 9000000))
     = inr {| Key := "job-42"; LeaseID := "lease-A"; ValidUntil := 20000000;
              ServerNonce := "nonce-A" |}
  /\ snd (Refresh_with (Sample.resolving 10000 "nonce-2" (Sample.token_A 9000000))
            (Sample.held_by_A 9000000) 8999000 (Sample.token_A 9000000))
     = inr {| Key := "job-42"; LeaseID := "lease-A"; ValidUntil := 18999000;
              ServerNonce := "nonce-A" |}.
Proof. repeat split; vm_compute; reflexivity. Qed.

(* ===================================================================== *)
(** * Further properties of the code *)
(* ===================================================================== *)

Import Protocol.

(** ** The three tests of a key *)

(** X1.  The three places that test the format of a key agree: the key
    passes ValidateKey exactly when the guard of try_acquire_lock lets it
    through, and exactly when it satisfies the CHECK constraint of the
    table's key column. *)
Theorem key_tests_agree (key : string) :
  (ValidateKey key = None <-> validKeyRegex key = true)
  /\ negb ((256 <? LENGTH key) || negb (key_regex key)) = validKeyRegex key
  /\ key_check key = validKeyRegex key.
Proof.
  split; [|split].
  - unfold ValidateKey. destruct (validKeyRegex key); simpl; split;
      intros H; try reflexivity; discriminate.
  - destruct (validKeyRegex key) eqn:Hv.
    + destruct (valid_key_passes_sql key Hv) as [-> _]. reflexivity.
    + unfold validKeyRegex, key_regex, LENGTH in *.
      destruct (all_key_chars key); simpl in *;
        [|rewrite orb_true_r; reflexivity].
      destruct (256 <? Z.of_nat (String.length key)) eqn:Hlen; [reflexivity|].
      apply Z.ltb_ge in Hlen. apply Z.leb_le in Hlen. rewrite Hlen in Hv.
      rewrite andb_true_r in Hv. apply Z.leb_gt in Hv.
      destruct key; [reflexivity|simpl in Hv; lia].
  - destruct (validKeyRegex key) eqn:Hv.
    + apply (valid_key_passes_sql key Hv).
    + unfold validKeyRegex, key_check, key_regex, LENGTH in *.
      destruct (all_key_chars key); simpl in *; [|reflexivity].
      destruct key; [reflexivity|]. simpl in *. exact Hv.
Qed.

(** ** Grants *)

(** What a grant of try_acquire_lock says of the table it leaves. *)
Lemma try_acquire_lock_granted (now : Z) (key leaseID : string) (ttl_ms : Z)
    (nonce : string) (meta : option (gmap string string))
    (tb tb1 : gmap string Lease) (vu : option Z) :
  try_acquire_lock now key leaseID ttl_ms nonce meta tb = inr (tb1, (true, vu)) ->
  (256 <? LENGTH key) || negb (key_regex key) = false
  /\ vu = Some (now + ttl_ms * millisecond + 10 * millisecond)
  /\ match tb !! key with
     | Some old => valid_until old <= now
     | None => True
     end
  /\ tb1 = <[key :=
              {| lease_id := leaseID;
                 valid_until := now + ttl_ms * millisecond + 10 * millisecond;
                 server_nonce := nonce;
                 metadata := meta;
                 created_at := match tb !! key with
                               | Some old => created_at old
                               | None => now
                               end;
                 updated_at := now |}]> tb.
Proof.
  unfold try_acquire_lock.
  destruct ((256 <? LENGTH key) || negb (key_regex key)); [discriminate|].
  destruct (tb !! key) as [old|].
  - destruct (valid_until old <=? now) eqn:Hexp; simpl; intros H;
      inversion H; subst.
    apply Z.leb_le in Hexp. repeat split; assumption.
  - destruct (key_check key); simpl; intros H; inversion H; subst.
    repeat split.
Qed.

(** X2.  No double grant.  Once try_acquire_lock has granted a key until
    [vu], every call for that key at a time before [vu], with whatever
    lease id, nonce, metadata and TTL (those of the holder included), is
    answered (false, NULL) and leaves the table as it is. *)
Theorem no_double_grant (now now' : Z) (key l1 l2 : string) (ttl1 ttl2 : Z)
    (n1 n2 : string) (m1 m2 : option (gmap string string))
    (tb tb1 : gmap string Lease) (vu : Z) :
  try_acquire_lock now key l1 ttl1 n1 m1 tb = inr (tb1, (true, Some vu)) ->
  now' < vu ->
  try_acquire_lock now' key l2 ttl2 n2 m2 tb1 = inr (tb1, (false, None)).
Proof.
  intros Hg Hlt.
  apply try_acquire_lock_granted in Hg as (Hguard & Hvu & _ & ->).
  injection Hvu as ->.
  unfold try_acquire_lock. rewrite Hguard, lookup_insert_eq. simpl.
  replace (_ <=? now') with false by (symmetry; apply Z.leb_gt; exact Hlt).
  reflexivity.
Qed.

Lemma no_double_grant_witness :
  exists tb1 : gmap string Lease,
    try_acquire_lock 0 "job-42" "lease-A" 10000 "nonce-A" None ∅
      = inr (tb1, (true, Some 10010000))
    /\ try_acquire_lock 10009999 "job-42" "lease-B" 10000 "nonce-B" None tb1
      = inr (tb1, (false, None)).
Proof.
  eexists. split; [reflexivity|].
  apply (no_double_grant 0 10009999 "job-42" "lease-A" "lease-B" 10000 10000
           "nonce-A" "nonce-B" None None ∅ _ 10010000);
    [reflexivity | lia].
Defined.

(** ** Grant, then release *)

(** X3.  Acquire and release round trip.  After a grant of
    try_acquire_lock on an open pool, Release with the granted lease id and
    nonce (whatever validUntil the token carries) returns nil and removes
    the row: the table is the one before the grant, less the expired row of
    the key if it had one; it is exactly the table before the grant when
    the key had no row. *)
Theorem grant_then_Release (p p1 : Pool) (now : Z) (key leaseID : string)
    (ttl_ms : Z) (nonce : string) (meta : option (gmap string string))
    (vu : option Z) (validUntil : Z) :
  run p (try_acquire_lock now key leaseID ttl_ms nonce meta)
    = (p1, inr (true, vu)) ->
  Release p1 (token_of key leaseID nonce validUntil)
    = ({| closed := false; locks := delete key (locks p) |}, None)
  /\ (locks p !! key = None -> delete key (locks p) = locks p).
Proof.
  intros Hrun. unfold run in Hrun.
  destruct (closed p) eqn:Hopen; [discriminate|].
  destruct (try_acquire_lock now key leaseID ttl_ms nonce meta (locks p))
    as [e|[tb1 r]] eqn:Hg; [discriminate|].
  injection Hrun as <- ->.
  apply try_acquire_lock_granted in Hg as (_ & _ & _ & ->).
  split; [|apply delete_id].
  unfold Release, run, releaseLockSQL, token_of. simpl.
  rewrite lookup_insert_eq. simpl. rewrite !String.eqb_refl. simpl.
  rewrite delete_insert_eq. reflexivity.
Qed.

Lemma grant_then_Release_witness :
  exists p1,
    run {| closed := false; locks := ∅ |}
        (try_acquire_lock 0 "job-42" "lease-A" 10000 "nonce-A" None)
      = (p1, inr (true, Some 10010000))
    /\ Release p1 (token_of "job-42" "lease-A" "nonce-A" 10010000)
      = ({| closed := false; locks := delete "job-42" ∅ |}, None).
Proof.
  eexists. split; [reflexivity|].
  apply (grant_then_Release {| closed := false; locks := ∅ |} _ 0 "job-42"
           "lease-A" 10000 "nonce-A" None (Some 10010000) 10010000).
  reflexivity.
Defined.

(** X4.  A token releases once.  When Release has returned nil, a second
    Release with the same token finds no row, changes nothing and returns
    ErrLockOwnershipMismatch. *)
Theorem Release_twice (p p' : Pool) (token : LockToken) :
  Release p token = (p', None) ->
  Release p' token = (p', Some ErrLockOwnershipMismatch).
Proof.
  unfold Release, run.
  destruct (closed p) eqn:Hopen; [simpl; discriminate|].
  unfold releaseLockSQL.
  destruct (locks p !! Key token) as [row|] eqn:Hrow;
    [|simpl; discriminate].
  destruct (String.eqb (lease_id row) (LeaseID token)
            && String.eqb (server_nonce row) (ServerNonce token));
    simpl; [|discriminate].
  intros H. injection H as <-. simpl.
  rewrite lookup_delete_eq. reflexivity.
Qed.

Lemma Release_twice_witness :
  Release {| closed := false;
             locks := delete "job-42" (locks (Sample.held_by_A 5000)) |}
    (Sample.token_A 5000)
  = ({| closed := false;
        locks := delete "job-42" (locks (Sample.held_by_A 5000)) |},
     Some ErrLockOwnershipMismatch).
Proof.
  apply (Release_twice (Sample.held_by_A 5000)). reflexivity.
Defined.

(** ** Expiry *)

(** X5.  Take-over after expiry.  When the row of a valid key has
    valid_until <= NOW(), try_acquire_lock hands the key to the caller: the
    row gets the caller's lease id, nonce and metadata, the new valid_until
    and updated_at = NOW(), and keeps the created_at of the row it
    replaces.  From then on a Release with the previous holder's lease id
    and nonce (when they differ from the new ones in lease id or nonce)
    removes nothing and returns ErrLockOwnershipMismatch. *)
Theorem expired_lease_taken_over (now : Z) (key leaseID : string) (ttl_ms : Z)
    (nonce : string) (meta : option (gmap string string))
    (tb : gmap string Lease) (old : Lease) (validUntil : Z) :
  validKeyRegex key = true ->
  tb !! key = Some old ->
  valid_until old <= now ->
  lease_id old <> leaseID \/ server_nonce old <> nonce ->
  let row :=
    {| lease_id := leaseID;
       valid_until := now + ttl_ms * millisecond + 10 * millisecond;
       server_nonce := nonce;
       metadata := meta;
       created_at := created_at old;
       updated_at := now |} in
  try_acquire_lock now key leaseID ttl_ms nonce meta tb
    = inr (<[key := row]> tb, (true, Some (valid_until row)))
  /\ Release {| closed := false; locks := <[key := row]> tb |}
       (token_of key (lease_id old) (server_nonce old) validUntil)
     = ({| closed := false; locks := <[key := row]> tb |},
        Some ErrLockOwnershipMismatch).
Proof.
  intros Hkey Hold Hexp Hdiff row.
  destruct (valid_key_passes_sql key Hkey) as [Hguard _].
  split.
  - unfold try_acquire_lock. rewrite Hguard, Hold.
    apply Z.leb_le in Hexp. rewrite Hexp. reflexivity.
  - unfold Release, run, releaseLockSQL, token_of. simpl.
    rewrite lookup_insert_eq. simpl.
    replace (String.eqb leaseID (lease_id old)
             && String.eqb nonce (server_nonce old)) with false; [reflexivity|].
    symmetry. apply andb_false_iff.
    destruct Hdiff as [H|H]; [left|right]; apply String.eqb_neq; congruence.
Qed.

Lemma expired_lease_taken_over_witness :
  try_acquire_lock 6000 "job-42" "lease-B" 10000 "nonce-B" None
    (locks (Sample.held_by_A 5000))
  = inr (<["job-42" :=
            {| lease_id := "lease-B"; valid_until := 10016000;
               server_nonce := "nonce-B"; metadata := None;
               created_at := 0; updated_at := 6000 |}]>
           (locks (Sample.held_by_A 5000)),
         (true, Some 10016000)).
Proof.
  refine (proj1 (expired_lease_taken_over 6000 "job-42" "lease-B" 10000
                   "nonce-B" None (locks (Sample.held_by_A 5000))
                   (Sample.lease_A 5000) 5000 eq_refl eq_refl _ _)).
  - vm_compute. discriminate.
  - left. discriminate.
Defined.

(** ** IsHeld along the life of a lease *)

(** X6.  After a grant until [vu], IsHeld for the key, asked with any token
    at any time [now'], reports no error and held exactly while
    [now' < vu]; the remaining time is [vu - now'] cut to whole seconds. *)
Theorem IsHeld_after_grant (p p1 : Pool) (now now' : Z) (key leaseID : string)
    (ttl_ms : Z) (nonce : string) (meta : option (gmap string string))
    (vu : Z) (token : LockToken) :
  run p (try_acquire_lock now key leaseID ttl_ms nonce meta)
    = (p1, inr (true, Some vu)) ->
  Key token = key ->
  IsHeld p1 now' token
  = (now' <? vu,
     wrap64 (int64_of_float (EXTRACT_EPOCH (vu - now')) * Second),
     None).
Proof.
  intros Hrun <-. unfold run in Hrun.
  destruct (closed p) eqn:Hopen; [discriminate|].
  destruct (try_acquire_lock now (Key token) leaseID ttl_ms nonce meta (locks p))
    as [e|[tb1 r]] eqn:Hg; [discriminate|].
  injection Hrun as <- ->.
  apply try_acquire_lock_granted in Hg as (_ & Hvu & _ & ->).
  injection Hvu as ->.
  unfold IsHeld, query, isHeldLockSQL. simpl.
  rewrite lookup_insert_eq. reflexivity.
Qed.

Lemma IsHeld_after_grant_witness :
  exists p1,
    run {| closed := false; locks := ∅ |}
        (try_acquire_lock 0 "job-42" "lease-A" 10000 "nonce-A" None)
      = (p1, inr (true, Some 10010000))
    /\ IsHeld p1 4000000 Sample.token_B = (true, 6 * Second, None)
    /\ IsHeld p1 10010000 Sample.token_B = (false, 0, None).
Proof.
  eexists. split; [reflexivity|]. split.
  - apply (IsHeld_after_grant {| closed := false; locks := ∅ |} _ 0 4000000
             "job-42" "lease-A" 10000 "nonce-A" None 10010000 Sample.token_B);
      reflexivity.
  - apply (IsHeld_after_grant {| closed := false; locks := ∅ |} _ 0 10010000
             "job-42" "lease-A" 10000 "nonce-A" None 10010000 Sample.token_B);
      reflexivity.
Defined.

(** X7.  After a Release that returned nil, IsHeld for the released key,
    asked with any token at any time, reports (false, 0) and no error: the
    missing row is not an error. *)
Theorem IsHeld_after_Release (p p' : Pool) (now : Z) (token token' : LockToken) :
  Release p token = (p', None) ->
  Key token' = Key token ->
  IsHeld p' now token' = (false, 0, None).
Proof.
  unfold Release, run. intros H Hk.
  destruct (closed p) eqn:Hopen; [simpl in H; discriminate|].
  unfold releaseLockSQL in H.
  destruct (locks p !! Key token) as [row|] eqn:Hrow;
    [|simpl in H; discriminate].
  destruct (String.eqb (lease_id row) (LeaseID token)
            && String.eqb (server_nonce row) (ServerNonce token));
    simpl in H; [|discriminate].
  injection H as <-.
  unfold IsHeld, query, isHeldLockSQL. simpl.
  rewrite Hk, lookup_delete_eq. reflexivity.
Qed.

Lemma IsHeld_after_Release_witness :
  IsHeld {| closed := false;
            locks := delete "job-42" (locks (Sample.held_by_A 5000)) |}
    1000 Sample.token_B
  = (false, 0, None).
Proof.
  apply (IsHeld_after_Release (Sample.held_by_A 5000) _ 1000
           (Sample.token_A 5000) Sample.token_B); reflexivity.
Defined.

(** ** What the statements keep *)

(** X8.  The statements address one key.  Whatever its arguments and the
    table, try_acquire_lock leaves the row of every key other than [_key]
    as it was, and so does Release for every key other than the token's, on
    an open or a closed pool. *)
Theorem other_keys_untouched (k' : string) :
  (forall now key leaseID ttl_ms nonce meta (tb tb1 : gmap string Lease) r,
      k' <> key ->
      try_acquire_lock now key leaseID ttl_ms nonce meta tb = inr (tb1, r) ->
      tb1 !! k' = tb !! k')
  /\ (forall (p : Pool) token,
      k' <> Key token ->
      locks (fst (Release p token)) !! k' = locks p !! k').
Proof.
  split.
  - intros now key leaseID ttl_ms nonce meta tb tb1 r Hne.
    unfold try_acquire_lock.
    destruct ((256 <? LENGTH key) || negb (key_regex key)); [discriminate|].
    destruct (tb !! key) as [old|].
    + destruct (valid_until old <=? now); simpl; intros H; inversion H; subst;
        [apply lookup_insert_ne; congruence | reflexivity].
    + destruct (key_check key); simpl; intros H; inversion H; subst.
      apply lookup_insert_ne; congruence.
  - intros p token Hne. unfold Release, run.
    destruct (closed p); [reflexivity|].
    unfold releaseLockSQL.
    destruct (locks p !! Key token) as [row|]; [|reflexivity].
    destruct (String.eqb (lease_id row) (LeaseID token)
              && String.eqb (server_nonce row) (ServerNonce token)); simpl;
      [apply lookup_delete_ne; congruence | reflexivity].
Qed.

(** X9.  The table keeps its CHECK constraint.  If every key of the table
    satisfies the constraint of the key column, so does every key of the
    table try_acquire_lock, releaseLockSQL or refreshLockSQL (under any
    resolution of its placeholders) leaves. *)
Theorem statements_keep_keys_checked (tb : gmap string Lease) :
  keys_checked tb ->
  (forall now key leaseID ttl_ms nonce meta tb1 r,
      try_acquire_lock now key leaseID ttl_ms nonce meta tb = inr (tb1, r) ->
      keys_checked tb1)
  /\ (forall k l n tb1 rows,
      releaseLockSQL k l n tb = inr (tb1, rows) -> keys_checked tb1)
  /\ (forall resolve now tb1 rows,
      refreshLockSQL resolve now tb = inr (tb1, rows) -> keys_checked tb1).
Proof.
  intros Hinv. split; [|split].
  - intros now key leaseID ttl_ms nonce meta tb1 r.
    unfold try_acquire_lock.
    destruct ((256 <? LENGTH key) || negb (key_regex key)); [discriminate|].
    destruct (tb !! key) as [old|] eqn:Hold.
    + destruct (valid_until old <=? now); simpl; intros H; inversion H; subst;
        [|exact Hinv].
      intros k row. destruct (decide (key = k)) as [<-|Hne].
      * intros _. exact (Hinv key old Hold).
      * rewrite lookup_insert_ne by exact Hne. apply Hinv.
    + destruct (key_check key) eqn:Hc; simpl; intros H; inversion H; subst.
      intros k row. destruct (decide (key = k)) as [<-|Hne].
      * intros _. exact Hc.
      * rewrite lookup_insert_ne by exact Hne. apply Hinv.
  - intros k l n tb1 rows. unfold releaseLockSQL.
    destruct (tb !! k) as [row|];
      [destruct (String.eqb (lease_id row) l && String.eqb (server_nonce row) n)|];
      intros H; inversion H; subst; try exact Hinv.
    intros k' row'. destruct (decide (k = k')) as [<-|Hne].
    + rewrite lookup_delete_eq. discriminate.
    + rewrite lookup_delete_ne by exact Hne. apply Hinv.
  - intros resolve now tb1 rows. unfold refreshLockSQL.
    destruct (resolve (Named "ttl")) as [[|ttl]|]; try discriminate.
    destruct (resolve (Named "new_nonce")) as [[new_nonce|]|]; try discriminate.
    destruct (resolve (Positional 1)) as [[k|]|]; try discriminate.
    destruct (resolve (Positional 2)) as [[l|]|]; try discriminate.
    destruct (resolve (Positional 3)) as [[n|]|]; try discriminate.
    destruct (tb !! k) as [row|] eqn:Hrow;
      [destruct (String.eqb (lease_id row) l && String.eqb (server_nonce row) n
                 && (now - ttl * 150 <? valid_until row))|];
      intros H; inversion H; subst; try exact Hinv.
    intros k' row'. destruct (decide (k = k')) as [<-|Hne].
    + intros _. exact (Hinv k row Hrow).
    + rewrite lookup_insert_ne by exact Hne. apply Hinv.
Qed.

Lemma statements_keep_keys_checked_witness :
  keys_checked (<["job-42" :=
                   {| lease_id := "lease-B"; valid_until := 10016000;
                      server_nonce := "nonce-B"; metadata := None;
                      created_at := 0; updated_at := 6000 |}]>
                  (locks (Sample.held_by_A 5000))).
Proof.
  assert (Hinv : keys_checked (locks (Sample.held_by_A 5000))).
  { intros k row Hk. unfold Sample.held_by_A in Hk. simpl in Hk.
    apply lookup_singleton_Some in Hk as [<- _]. reflexivity. }
  destruct (statements_keep_keys_checked (locks (Sample.held_by_A 5000)) Hinv)
    as [Hacq _].
  apply (Hacq 6000 "job-42" "lease-B" 10000 "nonce-B" None _
           (true, Some 10016000)).
  reflexivity.
Defined.

(** ** Acquire: what every run of it keeps to *)

Lemma CalculateBackoff_capped (s : RetryStrategy) (attempt : Z) :
  CalculateBackoff s attempt <= MaxDelay s.
Proof.
  unfold CalculateBackoff.
  destruct (MaxDelay s <? wrap64 _) eqn:H; [lia|apply Z.ltb_ge in H; exact H].
Qed.

(** The events of [k] rounds from attempt [a]: calls built by
    [attempt_query] for attempts in [a, a + k), sleeps within the cap. *)
Lemma acquire_loop_events (backend : TryAcquire -> Scanned)
    (key leaseID nonce : string) (metadata : option (gmap string string))
    (opts : LockOptions) (k : nat) :
  forall a,
    Forall (fun ev =>
              match ev with
              | Query q =>
                  q = attempt_query key leaseID nonce metadata opts (q_attempt q)
                  /\ a <= q_attempt q < a + Z.of_nat k
              | Sleep d => d <= MaxDelay (Retry opts)
              end)
      (fst (acquire_loop backend key leaseID nonce metadata opts k a)).
Proof.
  induction k as [|k IH]; intros a; simpl; [constructor|].
  assert (Hq : attempt_query key leaseID nonce metadata opts a
               = attempt_query key leaseID nonce metadata opts
                   (q_attempt (attempt_query key leaseID nonce metadata opts a))
               /\ a <= q_attempt (attempt_query key leaseID nonce metadata opts a)
                  < a + Z.pos (Pos.of_succ_nat k))
    by (simpl; split; [reflexivity|lia]).
  destruct (backend _) as [[|] v|err]; simpl.
  - constructor; [exact Hq|constructor].
  - specialize (IH (a + 1)).
    destruct (acquire_loop _ _ _ _ _ _ k (a + 1)) as [tr r]. simpl in *.
    constructor; [exact Hq|].
    constructor; [apply CalculateBackoff_capped|].
    eapply Forall_impl; [exact IH|].
    intros [q|d]; simpl; [|tauto]. intros [Heq Hr]. split; [exact Heq|lia].
  - constructor; [exact Hq|constructor].
Qed.

Lemma Milliseconds_of_valid_TTL (ttl : Z) :
  MinLockTTL <= ttl <= MaxLockTTL -> 1 <= Milliseconds ttl <= 600000.
Proof.
  unfold MinLockTTL, MaxLockTTL, Milliseconds, Minute, Second, Millisecond,
    Microsecond, Nanosecond.
  intros [Hlo Hhi].
  rewrite Z.quot_div_nonneg by lia.
  split.
  - apply Z.div_le_lower_bound; lia.
  - apply Z.div_le_upper_bound; lia.
Qed.

(** X10.  Acquire never calls the backend with arguments out of range.
    Every call of try_acquire_lock in a trace of Acquire carries the key
    asked for, the lease id and nonce drawn for this Acquire, the caller's
    metadata, a TTL of 1 to 600000 ms (the options' TTL in whole
    milliseconds), a positive deadline (the caller's RequestTimeout, or 3 s
    when that is zero or negative) and an attempt number from 0 to
    MaxRetries; and every sleep is at most MaxDelay. *)
Theorem Acquire_events_well_formed (backend : TryAcquire -> Scanned)
    (leaseID nonce key : string) (opts : LockOptions) :
  Forall (well_formed_event key leaseID nonce opts)
    (fst (Acquire backend leaseID nonce key opts)).
Proof.
  unfold Acquire, ValidateKey, Validate.
  destruct (negb (validKeyRegex key)); [constructor|].
  destruct ((TTL opts <? MinLockTTL) || (MaxLockTTL <? TTL opts)) eqn:Httl;
    [constructor|].
  apply orb_false_iff in Httl as [Hlo Hhi].
  apply Z.ltb_ge in Hlo, Hhi.
  set (o' := if RequestTimeout opts <=? 0 then _ else opts).
  assert (Ho : TTL o' = TTL opts /\ Retry o' = Retry opts
               /\ Metadata o' = Metadata opts
               /\ RequestTimeout o'
                  = (if RequestTimeout opts <=? 0 then DefaultRequestTimeout
                     else RequestTimeout opts)
               /\ 0 < RequestTimeout o').
  { subst o'. destruct (RequestTimeout opts <=? 0) eqn:Ht; simpl;
      repeat split; try reflexivity.
    apply Z.leb_gt in Ht. exact Ht. }
  destruct Ho as (Hottl & Horetry & Hometa & Hotime & Hopos).
  destruct (RetryStrategy_Validate (Retry o')) eqn:Hrs; [constructor|].
  assert (Hmax : 0 <= MaxRetries (Retry opts)).
  { unfold RetryStrategy_Validate in Hrs. rewrite Horetry in Hrs.
    destruct (MaxRetries (Retry opts) <? 0) eqn:Hm; [discriminate|].
    apply Z.ltb_ge in Hm. exact Hm. }
  simpl.
  eapply Forall_impl;
    [apply (acquire_loop_events backend key leaseID nonce (Metadata o') o'
              (Z.to_nat (MaxRetries (Retry o') + 1)) 0)|].
  intros [q|d]; simpl.
  - intros [Heq Hr]. rewrite Horetry in Hr. rewrite Heq. simpl.
    rewrite Hottl, Hometa, Hotime, <- Hotime.
    repeat split; try reflexivity; try exact Hopos;
      try apply (Milliseconds_of_valid_TTL (TTL opts)); lia.
  - rewrite Horetry. tauto.
Qed.

Lemma acquire_loop_bounds (backend : TryAcquire -> Scanned)
    (key leaseID nonce : string) (metadata : option (gmap string string))
    (opts : LockOptions) (k : nat) :
  forall a,
    (backend_calls (fst (acquire_loop backend key leaseID nonce metadata opts k a))
     <= k)%nat
    /\ slept (fst (acquire_loop backend key leaseID nonce metadata opts k a))
       <= Z.of_nat
            (backend_calls
               (fst (acquire_loop backend key leaseID nonce metadata opts k a)))
          * Z.max 0 (MaxDelay (Retry opts)).
Proof.
  induction k as [|k IH]; intros a; simpl; [split; [lia|reflexivity]|].
  destruct (backend _) as [[|] v|err]; simpl; try (split; lia).
  specialize (IH (a + 1)).
  destruct (acquire_loop _ _ _ _ _ _ k (a + 1)) as [tr r]. simpl in *.
  destruct IH as [Hc Hs]. split; [lia|].
  pose proof (CalculateBackoff_capped (Retry opts) a) as Hcap.
  set (d := CalculateBackoff (Retry opts) a) in *.
  set (c := backend_calls tr) in *.
  set (m := MaxDelay (Retry opts)) in *.
  assert (Z.max 0 d <= Z.max 0 m) by lia.
  replace (Z.pos (Pos.of_succ_nat c)) with (Z.of_nat c + 1) by lia.
  lia.
Qed.

(** X11.  Acquire is bounded.  It calls the backend at most MaxRetries + 1
    times (not at all when MaxRetries is negative), and the time it spends
    in time.Sleep is at most MaxDelay (if positive) for each call made. *)
Theorem Acquire_bounded (backend : TryAcquire -> Scanned)
    (leaseID nonce key : string) (opts : LockOptions) :
  (backend_calls (fst (Acquire backend leaseID nonce key opts))
   <= Z.to_nat (MaxRetries (Retry opts) + 1))%nat
  /\ slept (fst (Acquire backend leaseID nonce key opts))
     <= Z.of_nat (backend_calls (fst (Acquire backend leaseID nonce key opts)))
        * Z.max 0 (MaxDelay (Retry opts)).
Proof.
  unfold Acquire, ValidateKey, Validate.
  destruct (negb (validKeyRegex key)); [simpl; split; lia|].
  destruct ((TTL opts <? MinLockTTL) || (MaxLockTTL <? TTL opts));
    [simpl; split; lia|].
  set (o' := if RequestTimeout opts <=? 0 then _ else opts).
  assert (Hr : Retry o' = Retry opts)
    by (subst o'; destruct (RequestTimeout opts <=? 0); reflexivity).
  destruct (RetryStrategy_Validate (Retry o')); [simpl; split; lia|].
  simpl. rewrite <- Hr. apply acquire_loop_bounds.
Qed.

Lemma acquire_loop_token (backend : TryAcquire -> Scanned)
    (key leaseID nonce : string) (metadata : option (gmap string string))
    (opts : LockOptions) (k : nat) :
  forall a token,
    snd (acquire_loop backend key leaseID nonce metadata opts k a) = inr token ->
    token = token_of key leaseID nonce (ValidUntil token)
    /\ exists q,
        last (fst (acquire_loop backend key leaseID nonce metadata opts k a))
        = Some (Query q)
        /\ backend q = Row true (ValidUntil token).
Proof.
  induction k as [|k IH]; intros a token; simpl; [discriminate|].
  destruct (backend _) as [[|] v|err] eqn:Hb; simpl.
  - intros H. injection H as <-. split; [reflexivity|].
    eexists. split; [reflexivity|exact Hb].
  - specialize (IH (a + 1) token).
    destruct (acquire_loop _ _ _ _ _ _ k (a + 1)) as [tr r]. simpl in *.
    intros Hr. destruct (IH Hr) as [Htok (q & Hlast & Hq)].
    split; [exact Htok|]. exists q. split; [|exact Hq].
    rewrite !last_cons, Hlast. reflexivity.
  - discriminate.
Qed.

(** X12.  The token Acquire returns is the caller's own.  It carries the key
    asked for and the lease id and nonce drawn for this Acquire, and its
    validUntil is the one the backend reported with acquired = true in the
    last call of the trace. *)
Theorem Acquire_token (backend : TryAcquire -> Scanned)
    (leaseID nonce key : string) (opts : LockOptions) (token : LockToken) :
  snd (Acquire backend leaseID nonce key opts) = inr token ->
  Key token = key /\ LeaseID token = leaseID /\ ServerNonce token = nonce
  /\ exists q,
      last (fst (Acquire backend leaseID nonce key opts)) = Some (Query q)
      /\ backend q = Row true (ValidUntil token).
Proof.
  unfold Acquire, ValidateKey, Validate.
  destruct (negb (validKeyRegex key)); [discriminate|].
  destruct ((TTL opts <? MinLockTTL) || (MaxLockTTL <? TTL opts));
    [discriminate|].
  destruct (RetryStrategy_Validate _); [discriminate|].
  simpl. intros H.
  apply acquire_loop_token in H as [Htok Hq].
  rewrite Htok. simpl. repeat split. exact Hq.
Qed.

Lemma Acquire_token_witness :
  Key {| Key := "job-42"; LeaseID := "lease-B"; ValidUntil := 11010000;
         ServerNonce := "nonce-B" |} = "job-42"
  /\ LeaseID {| Key := "job-42"; LeaseID := "lease-B"; ValidUntil := 11010000;
                ServerNonce := "nonce-B" |} = "lease-B"
  /\ ServerNonce {| Key := "job-42"; LeaseID := "lease-B";
                    ValidUntil := 11010000; ServerNonce := "nonce-B" |}
     = "nonce-B"
  /\ exists q,
      last (fst (Acquire (backend_on (fun _ => 1000000) ∅) "lease-B" "nonce-B"
                   "job-42" Sample.job42_options)) = Some (Query q)
      /\ backend_on (fun _ => 1000000) ∅ q = Row true 11010000.
Proof.
  apply (Acquire_token (backend_on (fun _ => 1000000) ∅) "lease-B" "nonce-B"
           "job-42" Sample.job42_options
           {| Key := "job-42"; LeaseID := "lease-B"; ValidUntil := 11010000;
              ServerNonce := "nonce-B" |}).
  reflexivity.
Defined.

Lemma acquire_loop_errors (backend : TryAcquire -> Scanned)
    (key leaseID nonce : string) (metadata : option (gmap string string))
    (opts : LockOptions) (k : nat) :
  forall a,
    match snd (acquire_loop backend key leaseID nonce metadata opts k a) with
    | inl e =>
        (e = ErrLockAcquisitionFailed
         \/ exists err, e = fmt_Errorf "failed to acquire lock: %w" (Pgx err) nil)
        /\ errors_Is e ErrLockContention = false
        /\ errors_Is e ErrOperationTimeout = false
        /\ errors_Is e ErrLockNotFound = false
        /\ errors_Is e ErrLockOwnershipMismatch = false
    | inr _ => True
    end.
Proof.
  induction k as [|k IH]; intros a; simpl.
  - repeat split; try reflexivity. left. reflexivity.
  - destruct (backend _) as [[|] v|err]; simpl.
    + exact I.
    + specialize (IH (a + 1)).
      destruct (acquire_loop _ _ _ _ _ _ k (a + 1)) as [tr r]. exact IH.
    + repeat split; try reflexivity. right. eexists. reflexivity.
Qed.

(** X13.  The errors of Acquire.  An error Acquire returns is a validation
    error, ErrLockAcquisitionFailed, or the driver's error wrapped as
    "failed to acquire lock"; it never is, nor wraps, ErrLockContention,
    ErrOperationTimeout, ErrLockNotFound or ErrLockOwnershipMismatch. *)
Theorem Acquire_errors (backend : TryAcquire -> Scanned)
    (leaseID nonce key : string) (opts : LockOptions) :
  match snd (Acquire backend leaseID nonce key opts) with
  | inl e =>
      Acquire_error e
      /\ errors_Is e ErrLockContention = false
      /\ errors_Is e ErrOperationTimeout = false
      /\ errors_Is e ErrLockNotFound = false
      /\ errors_Is e ErrLockOwnershipMismatch = false
  | inr _ => True
  end.
Proof.
  unfold Acquire, ValidateKey, Validate, Acquire_error.
  destruct (negb (validKeyRegex key));
    [simpl; repeat split; left; reflexivity|].
  destruct ((TTL opts <? MinLockTTL) || (MaxLockTTL <? TTL opts));
    [simpl; repeat split; left; reflexivity|].
  unfold RetryStrategy_Validate.
  repeat match goal with
         | |- context [if ?b then Some _ else _] =>
             destruct b; [simpl; repeat split; left; reflexivity|]
         end.
  simpl.
  match goal with
  | |- context [acquire_loop ?b ?k ?l ?n ?m ?o ?c ?a] =>
      pose proof (acquire_loop_errors b k l n m o c a) as H;
      destruct (snd (acquire_loop b k l n m o c a)) as [e|tok]
  end; [|exact I].
  destruct H as (Hshape & H1 & H2 & H3 & H4).
  repeat split; try assumption. right. exact Hshape.
Qed.

(** ** CalculateBackoff: the cases without growth *)

Lemma math_Pow_int_zero (x : float) : math_Pow_int x 0 = 1%float.
Proof.
  unfold math_Pow_int.
  replace (PrimFloat.eqb (float64_of_int 0) 0) with true
    by (vm_compute; reflexivity).
  reflexivity.
Qed.

Lemma math_Pow_int_one (n : Z) : math_Pow_int 1 n = 1%float.
Proof.
  unfold math_Pow_int.
  replace (PrimFloat.eqb 1 1) with true by (vm_compute; reflexivity).
  rewrite orb_true_r. reflexivity.
Qed.

Lemma wrap64_small (z : Z) : MinInt64 <= z <= MaxInt64 -> wrap64 z = z.
Proof.
  unfold wrap64, MinInt64, MaxInt64. intros H.
  rewrite Z.mod_small by lia. lia.
Qed.

(** X14.  For a BaseDelay in the range of a Duration, the delay of attempt 0
    is BaseDelay capped at MaxDelay whatever the backoff factor (a NaN
    included), and with a backoff factor of exactly 1 that is the delay of
    every attempt. *)
Theorem CalculateBackoff_without_growth (s : RetryStrategy) (attempt : Z) :
  MinInt64 <= BaseDelay s <= MaxInt64 ->
  CalculateBackoff s 0 = Z.min (MaxDelay s) (BaseDelay s)
  /\ (BackoffFactor s = 1%float ->
      CalculateBackoff s attempt = Z.min (MaxDelay s) (BaseDelay s)).
Proof.
  intros Hr.
  assert (Hone : int64_of_float 1 = 1) by (vm_compute; reflexivity).
  assert (Hcap : (if MaxDelay s <? BaseDelay s then MaxDelay s else BaseDelay s)
                 = Z.min (MaxDelay s) (BaseDelay s)).
  { destruct (MaxDelay s <? BaseDelay s) eqn:H;
      [apply Z.ltb_lt in H|apply Z.ltb_ge in H]; lia. }
  split.
  - unfold CalculateBackoff.
    rewrite math_Pow_int_zero, Hone, Z.mul_1_r, (wrap64_small _ Hr).
    exact Hcap.
  - intros Hf. unfold CalculateBackoff.
    rewrite Hf, math_Pow_int_one, Hone, Z.mul_1_r, (wrap64_small _ Hr).
    exact Hcap.
Qed.

Lemma CalculateBackoff_without_growth_witness :
  CalculateBackoff (Sample.strategy 1) 0 = Z.min (10 * Second) (100 * Millisecond)
  /\ CalculateBackoff (Sample.strategy 1) 40 = Z.min (10 * Second) (100 * Millisecond).
Proof.
  assert (Hr : MinInt64 <= BaseDelay (Sample.strategy 1) <= MaxInt64)
    by (vm_compute; split; discriminate).
  destruct (CalculateBackoff_without_growth (Sample.strategy 1) 40 Hr)
    as [H0 H1].
  split; [exact H0|exact (H1 eq_refl)].
Defined.

(** ** LockOptions.Validate *)

(** X15.  Validate changes nothing of the options but the request timeout;
    when it succeeds, the timeout it leaves is positive (the caller's, or
    3 s in place of a zero or negative one), the TTL is within 1 ms and
    10 min and MaxRetries is not negative; and validating the options it
    leaves gives the same options and the same verdict. *)
Theorem Validate_options (o : LockOptions) :
  TTL (fst (core.Validate o)) = TTL o
  /\ Retry (fst (core.Validate o)) = Retry o
  /\ Metadata (fst (core.Validate o)) = Metadata o
  /\ (snd (core.Validate o) = None ->
      RequestTimeout (fst (core.Validate o))
      = (if RequestTimeout o <=? 0 then DefaultRequestTimeout
         else RequestTimeout o)
      /\ 0 < RequestTimeout (fst (core.Validate o))
      /\ MinLockTTL <= TTL o <= MaxLockTTL
      /\ 0 <= MaxRetries (Retry o))
  /\ core.Validate (fst (core.Validate o)) = core.Validate o.
Proof.
  unfold core.Validate.
  destruct ((TTL o <? MinLockTTL) || (MaxLockTTL <? TTL o)) eqn:Httl; simpl.
  - rewrite Httl. repeat split; discriminate.
  - apply orb_false_iff in Httl as Httl'. destruct Httl' as [Hlo Hhi].
    apply Z.ltb_ge in Hlo, Hhi.
    destruct (RequestTimeout o <=? 0) eqn:Ht; simpl.
    + rewrite Httl. simpl. repeat split; try lia.
      unfold RetryStrategy_Validate in H.
      destruct (MaxRetries (Retry o) <? 0) eqn:Hm; [discriminate|].
      apply Z.ltb_ge in Hm. exact Hm.
    + rewrite Httl, Ht. apply Z.leb_gt in Ht. repeat split; try lia.
      unfold RetryStrategy_Validate in H.
      destruct (MaxRetries (Retry o) <? 0) eqn:Hm; [discriminate|].
      apply Z.ltb_ge in Hm. exact Hm.
Qed.

(** ** The configuration *)

Lemma errors_Is_refl (e : error) : errors_Is e e = true.
Proof.
  destruct e; unfold errors_Is; fold errors_Is;
    match goal with
    | |- context [error_eq_dec ?a ?b] =>
        destruct (error_eq_dec a b) as [_|Hne]
    end; try reflexivity; exfalso; apply Hne; reflexivity.
Qed.

Lemma errors_Is_wrapped (format : string) (e : error) (args : list fmt_arg) :
  errors_Is (fmt_Errorf format e args) e = true.
Proof.
  unfold errors_Is; fold errors_Is.
  destruct (error_eq_dec (fmt_Errorf format e args) e);
    [reflexivity|apply errors_Is_refl].
Qed.

Lemma config_valid_iff (ErrInvalidConfig : error)
    (p : config.PostgresLockerConfig) :
  config.Validate ErrInvalidConfig p = None
  <-> config.MigrationSchema p <> ""
      /\ config.MigrationTableName p <> ""
      /\ config.LockSchema p <> ""
      /\ config.LockTableName p <> ""
      /\ config.LockTableName p <> config.MigrationTableName p.
Proof.
  unfold config.Validate, config.Validate_msgs, config.append_if.
  destruct (String.eqb (config.MigrationSchema p) "") eqn:H1;
  destruct (String.eqb (config.MigrationTableName p) "") eqn:H2;
  destruct (String.eqb (config.LockSchema p) "") eqn:H3;
  destruct (String.eqb (config.LockTableName p) "") eqn:H4;
  destruct (String.eqb (config.LockTableName p) (config.MigrationTableName p))
    eqn:H5; simpl;
  rewrite ?String.eqb_eq, ?String.eqb_neq in *;
  split; try discriminate; try (intros _; repeat split; assumption);
  intros (? & ? & ? & ? & ?); contradiction.
Qed.

(** X16.  The configuration is valid exactly when none of the two schema
    names and two table names is empty and the lock table's name differs
    from the migration table's (the schemas are not compared); every error
    Validate returns wraps ErrInvalidConfig. *)
Theorem config_Validate_spec (ErrInvalidConfig : error)
    (p : config.PostgresLockerConfig) :
  (config.Validate ErrInvalidConfig p = None
   <-> config.MigrationSchema p <> ""
       /\ config.MigrationTableName p <> ""
       /\ config.LockSchema p <> ""
       /\ config.LockTableName p <> ""
       /\ config.LockTableName p <> config.MigrationTableName p)
  /\ (forall e, config.Validate ErrInvalidConfig p = Some e ->
                errors_Is e ErrInvalidConfig = true).
Proof.
  split; [apply config_valid_iff|].
  intros e. unfold config.Validate.
  destruct (0 <? length (config.Validate_msgs p))%nat; [|discriminate].
  intros H. injection H as <-. apply errors_Is_wrapped.
Qed.

(** X17.  WithDefaults leaves no name empty and applying it twice is
    applying it once; so a configuration with defaults is valid exactly
    when its lock table's name differs from its migration table's, and the
    configuration NewPostgresLockerConfig builds is valid. *)
Theorem WithDefaults_spec (ErrInvalidConfig : error)
    (p : config.PostgresLockerConfig) :
  config.WithDefaults (config.WithDefaults p) = config.WithDefaults p
  /\ config.MigrationSchema (config.WithDefaults p) <> ""
  /\ config.MigrationTableName (config.WithDefaults p) <> ""
  /\ config.LockSchema (config.WithDefaults p) <> ""
  /\ config.LockTableName (config.WithDefaults p) <> ""
  /\ (config.Validate ErrInvalidConfig (config.WithDefaults p) = None
      <-> config.LockTableName (config.WithDefaults p)
          <> config.MigrationTableName (config.WithDefaults p))
  /\ config.Validate ErrInvalidConfig config.NewPostgresLockerConfig = None.
Proof.
  assert (Hne : config.MigrationSchema (config.WithDefaults p) <> ""
                /\ config.MigrationTableName (config.WithDefaults p) <> ""
                /\ config.LockSchema (config.WithDefaults p) <> ""
                /\ config.LockTableName (config.WithDefaults p) <> "").
  { unfold config.WithDefaults; simpl.
    repeat split;
      match goal with
      | |- (if String.eqb ?a "" then _ else _) <> "" =>
          destruct (String.eqb a "") eqn:H;
            [discriminate|apply String.eqb_neq; exact H]
      end. }
  destruct Hne as (Hms & Hmt & Hls & Hlt).
  split; [|repeat split; try assumption].
  - unfold config.WithDefaults; simpl.
    destruct (String.eqb (config.MigrationSchema p) "") eqn:H1;
    destruct (String.eqb (config.MigrationTableName p) "") eqn:H2;
    destruct (String.eqb (config.LockSchema p) "") eqn:H3;
    destruct (String.eqb (config.LockTableName p) "") eqn:H4;
    simpl; rewrite ?H1, ?H2, ?H3, ?H4; reflexivity.
  - intros H. apply config_valid_iff in H. tauto.
  - intros H. apply config_valid_iff. tauto.
Qed.

(** ** HealthCheck *)

(** X18.  HealthCheck is green exactly when the probe read 1 without an
    error and red in every other case, never yellow; the latency is the one
    measured and the throughput the pool's count of acquired connections. *)
Theorem HealthCheck_status (probe : pgx_error + Z) (latency acquiredConns : Z) :
  (Status (HealthCheck probe latency acquiredConns) = StatusGreen
   <-> probe = inr 1)
  /\ (Status (HealthCheck probe latency acquiredConns) = StatusRed
      <-> probe <> inr 1)
  /\ Latency (HealthCheck probe latency acquiredConns) = latency
  /\ Throughput (HealthCheck probe latency acquiredConns)
     = float64_of_int acquiredConns.
Proof.
  unfold HealthCheck.
  destruct probe as [e|v]; simpl.
  - repeat split; try discriminate; try reflexivity;
      try (intros H; contradiction).
  - destruct (v =? 1) eqn:Hv; simpl.
    + apply Z.eqb_eq in Hv. subst v.
      repeat split; try discriminate; try reflexivity;
        try (intros H; contradiction).
    + apply Z.eqb_neq in Hv.
      repeat split; try discriminate; try reflexivity; try congruence.
Qed.
